(** * chooser: the manifest / source-list reconciliation of get-photo.py

    A shallow embedding of [get-photo.py].  Python dictionaries that hold an
    image record are finite maps from keys to JSON scalars; the manifest is a
    record of its three optional keys; files, the network and the response
    are threaded through a state-and-exception monad whose state also keeps
    the trace of every effect, so that "no fetch" and "no write" are
    statements about the trace. *)

From Stdlib Require Import ZArith Ascii.
From stdpp Require Import base option list gmap strings fin_maps sets sorting.

Open Scope Z_scope.

(** ** JSON scalars and image records *)

Inductive value : Type :=
  | VNone
  | VBool (b : bool)
  | VInt (z : Z)
  | VStr (s : string).

#[global] Instance value_eq_dec : EqDecision value.
Proof. solve_decision. Defined.

(** Python truthiness of a scalar, as used by [img.get('cached', False)] and
    by ['cached' in img and img['cached']]. *)
Definition truthy (v : value) : bool :=
  match v with
  | VNone => false
  | VBool b => b
  | VInt z => negb (z =? 0)
  | VStr s => negb (bool_decide (s = ""))
  end.

(** An image record is a [dict] with optional keys. *)
Abbreviation Img := (gmap string value).

Record Manifest : Type := mkManifest {
  m_hash : option string;
  m_img : option (list Img);
  m_id : option string
}.

#[global] Instance Manifest_eq_dec : EqDecision Manifest.
Proof. solve_decision. Defined.

(** [p = {}] *)
Definition empty_manifest : Manifest := mkManifest None None None.

Definition set_hash (h : string) (m : Manifest) : Manifest :=
  mkManifest (Some h) (m_img m) (m_id m).
Definition set_img (l : list Img) (m : Manifest) : Manifest :=
  mkManifest (m_hash m) (Some l) (m_id m).
Definition set_id (i : string) (m : Manifest) : Manifest :=
  mkManifest (m_hash m) (m_img m) (Some i).

(** ** Exceptions, effects and the world *)

Inductive exn : Type :=
  | IOError
  | KeyError (k : string)
  | TypeError
  | IndexError
  | RequestException.

Inductive result (A : Type) : Type :=
  | Ok (a : A)
  | Raise (e : exn).
Arguments Ok {A} a.
Arguments Raise {A} e.

Inductive event : Type :=
  | EvGet (url : string)
  | EvPost (key : string) (url : value)
  | EvWriteManifest (m : Manifest)
  | EvWriteUrls (content : string)
  | EvMakedirs
  | EvWriteCache (path content : string)
  | EvRespond (status : string) (data : option Img).

Definition is_network (e : event) : bool :=
  match e with
  | EvGet _ | EvPost _ _ => true
  | _ => false
  end.

Definition is_write (e : event) : bool :=
  match e with
  | EvWriteManifest _ | EvWriteUrls _ | EvMakedirs | EvWriteCache _ _ => true
  | _ => false
  end.

(** The two persisted stores ([None]: the file is missing or unreadable; for
    the manifest also: not parseable), the local ["cache"] directory, and the
    trace of effects so far (oldest first). *)
Record World : Type := mkWorld {
  urls_file : option string;
  manifest_file : option Manifest;
  cache_dir : bool;
  cache_files : list (string * string);
  trace : list event
}.

Definition log (e : event) (w : World) : World :=
  mkWorld (urls_file w) (manifest_file w) (cache_dir w) (cache_files w)
          (trace w ++ [e]).

Definition M (A : Type) : Type := World → result A * World.

Definition ret {A} (a : A) : M A := λ w, (Ok a, w).
Definition raise {A} (e : exn) : M A := λ w, (Raise e, w).
Definition bind {A B} (m : M A) (k : A → M B) : M B :=
  λ w, match m w with
       | (Ok a, w') => k a w'
       | (Raise e, w') => (Raise e, w')
       end.
Definition lift {A} (r : result A) : M A := λ w, (r, w).

(** [try: m  except Exception: h] *)
Definition try_except {A} (m : M A) (h : M A) : M A :=
  λ w, match m w with
       | (Ok a, w') => (Ok a, w')
       | (Raise _, w') => h w'
       end.

Notation "'let*' x ':=' m 'in' k" := (bind m (λ x, k))
  (at level 10, x name, m at level 100, k at level 200, only parsing).
Notation "'do*' m 'in' k" := (bind m (λ _, k))
  (at level 10, m at level 100, k at level 200, only parsing).

Fixpoint mapM {A B} (f : A → M B) (l : list A) : M (list B) :=
  match l with
  | [] => ret []
  | a :: l' => let* b := f a in let* bs := mapM f l' in ret (b :: bs)
  end.

(** ** Strings: lines, [strip('\n')], [os.path] *)

(** A [string] is a text whose characters are the code points below 256. *)

Definition nl : ascii := "010"%char.
Definition is_nl (c : ascii) : bool := bool_decide (c = nl).
Definition NL : string := String nl "".

Definition cr : ascii := "013"%char.
Definition is_cr (c : ascii) : bool := bool_decide (c = cr).

(** The characters at which [str.splitlines] ends a line: line feed,
    vertical tab, form feed, carriage return, the file, group and record
    separators and NEL.  (U+2028 and U+2029 end a line too; they are beyond
    the characters of [string].) *)
Definition is_linebreak (c : ascii) : bool :=
  bool_decide
    (c ∈ ["010"; "011"; "012"; "013"; "028"; "029"; "030"; "133"]%char).

Definition starts_with_nl (s : string) : bool :=
  match s with
  | String c _ => is_nl c
  | EmptyString => false
  end.

(** Does the character [c], followed by [rest], end a line?  A carriage
    return followed by a line feed does not: the pair ends the line. *)
Definition ends_line (c : ascii) (rest : string) : bool :=
  is_linebreak c && negb (is_cr c && starts_with_nl rest).

(** [u.readlines()] for a file opened with [codecs.open]: the reader
    returns [str.splitlines(True)] of the text.  Every line keeps its
    terminator; a last line without one is returned as it is. *)
Fixpoint readlines (s : string) : list string :=
  match s with
  | EmptyString => []
  | String c s' =>
      if ends_line c s' then String c "" :: readlines s'
      else match readlines s' with
           | [] => [String c ""]
           | l :: ls => String c l :: ls
           end
  end.

Fixpoint lstrip_nl (s : string) : string :=
  match s with
  | String c s' => if is_nl c then lstrip_nl s' else s
  | EmptyString => ""
  end.

Fixpoint rstrip_nl (s : string) : string :=
  match s with
  | EmptyString => ""
  | String c s' =>
      let r := rstrip_nl s' in
      if is_nl c && bool_decide (r = "") then "" else String c r
  end.

(** [i.strip('\n')] *)
Definition strip_nl (s : string) : string := rstrip_nl (lstrip_nl s).

(** [''.join(lines)], what [writelines] puts in the file. *)
Fixpoint join (l : list string) : string :=
  match l with
  | [] => ""
  | s :: l' => s +:+ join l'
  end.

(** [os.path.basename]: what follows the last slash. *)
Fixpoint basename (s : string) : string :=
  match s with
  | EmptyString => ""
  | String c s' =>
      if bool_decide (c = "/"%char) then basename s'
      else if bool_decide (String.index 0 "/" s' = None) then s
      else basename s'
  end.

(** [os.path.join(a, b)] for a non-empty [a] without trailing slash. *)
Definition path_join (a b : string) : string :=
  match b with
  | String "/"%char _ => b
  | _ => a +:+ "/" +:+ b
  end.

(** ** The collaborators outside the program *)

(** An HTTP response, as far as the program looks at it. *)
Record response : Type := mkResponse {
  status_code : Z;
  headers : gmap string string;
  content : string
}.

(** [requests.codes.ok] and [requests.codes.created].  Both are small
    integers, on which [is not] is inequality. *)
Definition codes_ok : Z := 200.
Definition codes_created : Z := 201.

(** Libraries and services the program calls but does not implement: the
    hash function, the JSON serialiser, the network, the directory listing
    and the MIME tables; and the process's string hashing, which decides in
    what order a [set] of strings is iterated: [set_slot l x] is the place
    of [x] in the iteration of the set built from the list [l]. *)
Record Env : Type := mkEnv {
  set_slot : list string → string → nat;
  sha1_hex : string → string;
  json_dumps : Manifest → string;
  http_get : string → result response;
  tinify_shrink : string → value → result response;
  shrink_output : string → result (string * string);
  glob : string → list string;
  guess_type : string → option string;
  guess_extension : string → option string
}.

(** [self.config], the two keys the reconciliation reads. *)
Record Config : Type := mkConfig {
  cache_prefix : string;
  api_key : option string
}.

Definition opt_value (o : option string) : value :=
  match o with
  | Some s => VStr s
  | None => VNone
  end.

(** [d[k]] *)
Definition getitem (k : string) (d : Img) : result value :=
  match d !! k with
  | Some v => Ok v
  | None => Raise (KeyError k)
  end.

(** [img.get('cached', False)], taken as a condition. *)
Definition is_cached (img : Img) : bool :=
  match img !! "cached" with
  | Some v => truthy v
  | None => false
  end.

(** [Chooser.is_valid]: ['error' not in img]. *)
Definition is_valid (img : Img) : Prop := img !! "error" = None.

#[global] Instance is_valid_dec (img : Img) : Decision (is_valid img).
Proof. unfold is_valid. apply _. Defined.

Fixpoint mapR {A B} (f : A → result B) (l : list A) : result (list B) :=
  match l with
  | [] => Ok []
  | a :: l' =>
      match f a with
      | Raise e => Raise e
      | Ok b => match mapR f l' with
                | Raise e => Raise e
                | Ok bs => Ok (b :: bs)
                end
      end
  end.

(** [Chooser.valid_urls] *)
Definition valid_urls (imgs : list Img) : result (list value) :=
  mapR (getitem "url") (filter is_valid imgs).

(** [manifest['img']] *)
Definition get_img (m : Manifest) : result (list Img) :=
  match m_img m with
  | Some l => Ok l
  | None => Raise (KeyError "img")
  end.

(** [Chooser.with_valid_imgs] *)
Definition with_valid_imgs (manifest : Manifest) : result Manifest :=
  match get_img manifest with
  | Ok l => Ok (set_img (filter is_valid l) manifest)
  | Raise e => Raise e
  end.

(** [random.choice], the random index being [rnd]. *)
Definition choice {A} (rnd : nat) (l : list A) : result A :=
  match l !! (rnd `mod` length l)%nat with
  | Some a => Ok a
  | None => Raise IndexError
  end.

(** [url + '\n'] *)
Definition add_newline (v : value) : result string :=
  match v with
  | VStr s => Ok (s +:+ NL)
  | _ => Raise TypeError
  end.

(** [set([i.strip('\n') for i in u.readlines()])] *)
Definition parse_urls (lines : list string) : gset string :=
  list_to_set (strip_nl <$> lines).

Definition slot_le (E : Env) (lines : list string) (a b : string) : Prop :=
  (set_slot E lines a ≤ set_slot E lines b)%nat.

#[global] Instance slot_le_dec (E : Env) (lines : list string) (a b : string) :
  Decision (slot_le E lines a b).
Proof. unfold slot_le. apply _. Defined.

(** [for url in urls], for the set [urls] built from [lines]: its elements,
    each once, in the order the process's hashing gives them. *)
Definition iterate (E : Env) (lines : list string) (urls : gset string) :
    list string :=
  merge_sort (slot_le E lines) (elements urls).

(** [[url + '\n' for url in valid_urls]] *)
Definition url_lines (valid_urls : list value) : result (list string) :=
  mapR add_newline valid_urls.

Section Chooser.

Context (E : Env) (cfg : Config).

(** [sha1(self.urls_path)] *)
Definition sha1 : M string :=
  λ w, match urls_file w with
       | Some c => (Ok (sha1_hex E c), w)
       | None => (Raise IOError, w)
       end.

Definition sha1_dict (d : Manifest) : string := sha1_hex E (json_dumps E d).

(** [get_json(self.manifest_path)] *)
Definition get_json : M Manifest :=
  λ w, match manifest_file w with
       | Some m => (Ok m, w)
       | None => (Raise IOError, w)
       end.

(** [copen(self.urls_path).readlines()] *)
Definition read_urls : M (list string) :=
  λ w, match urls_file w with
       | Some c => (Ok (readlines c), w)
       | None => (Raise IOError, w)
       end.

Definition give_response (data : option Img) (status : string) : M unit :=
  λ w, (Ok tt, log (EvRespond status data) w).

Definition requests_get (url : value) : M response :=
  match url with
  | VStr u => λ w, (http_get E u, log (EvGet u) w)
  | _ => raise RequestException
  end.

Definition requests_post (key : string) (url : value) : M response :=
  λ w, (tinify_shrink E key url, log (EvPost key url) w).

(** [Chooser.update_manifest] *)
Definition update_manifest (manifest : Manifest) : M Manifest :=
  let manifest := set_id (sha1_dict manifest) manifest in
  λ w, (Ok manifest,
        log (EvWriteManifest manifest)
            (mkWorld (urls_file w) (Some manifest) (cache_dir w)
                     (cache_files w) (trace w))).

(** [Chooser.update_urls]: the file is opened for writing, hence emptied,
    before the lines are built. *)
Definition update_urls (valid_urls : list value) : M unit :=
  λ w, let put c := log (EvWriteUrls c)
                        (mkWorld (Some c) (manifest_file w) (cache_dir w)
                                 (cache_files w) (trace w)) in
       match url_lines valid_urls with
       | Ok lines => (Ok tt, put (join lines))
       | Raise e => (Raise e, put "")
       end.

(** [Chooser.fetch] *)
Definition fetch (img : Img) : M Img :=
  if is_cached img then ret img
  else
    let* url := lift (getitem "url" img) in
    let* r := requests_get url in
    if bool_decide (status_code r ≠ codes_ok) then
      ret (<["error" := VInt (status_code r)]> img)
    else
      ret (<["mime_type" :=
               VStr (default "img/jpeg" (headers r !! "Content-Type"))]> img).

(** The record [update_cache] builds for a file that [glob] found. *)
Definition cached_record (fn : string) : Img :=
  <["url" := VStr (cache_prefix cfg +:+ fn)]>
    (<["mime_type" := opt_value (guess_type E fn)]>
       {["cached" := VBool true]}).

(** [Chooser.update_cache].  The dictionary [poss] is updated in place, so
    the caller sees the value returned here. *)
Definition update_cache (poss : Manifest) : M Manifest :=
  let* urls_hash := sha1 in
  if bool_decide (m_hash poss = Some urls_hash) then ret poss
  else
    let poss := set_hash urls_hash poss in
    let* lines := read_urls in
    let urls := parse_urls lines in
    let imgs :=
      (λ url, ({["url" := VStr url]} : Img)) <$> iterate E lines urls in
    let cached_images := glob E (cache_prefix cfg +:+ "/*") in
    let imgs := imgs ++ (cached_record <$> cached_images) in
    let poss := set_img imgs poss in
    let* imgs := mapM fetch imgs in
    let poss := set_img imgs poss in
    let* poss := lift (with_valid_imgs poss) in
    let* poss := update_manifest poss in
    let* imgs := lift (get_img poss) in
    let* urls := lift (mapR (getitem "url") imgs) in
    do* update_urls urls in
    ret poss.

(** The function that [generate_cached_image(cache_prefix, auth)] returns;
    [auth] is the basic-auth pair [('api', key)]. *)
Definition generate_cached_image (prefix key : string) (img : Img) : M Img :=
  if is_cached img then ret img
  else
    let* u := lift (getitem "url" img) in
    let* r := requests_post key u in
    let img := <["original_url" := u]> img in
    let* date := lift (match headers r !! "Date" with
                       | Some d => Ok d
                       | None => Raise (KeyError "Date")
                       end) in
    let img := <["last_cached" := VStr date]> img in
    if bool_decide (status_code r ≠ codes_created) then
      ret (<["error" := VInt (status_code r)]> img)
    else
      let img := delete "error" img in
      let* out := lift (shrink_output E (content r)) in
      let url := out.1 in
      let mime_type := out.2 in
      let* r := requests_get (VStr url) in
      let fn := basename url in
      do* (λ w, if cache_dir w then (Ok tt, w)
                else (Ok tt, log EvMakedirs
                                 (mkWorld (urls_file w) (manifest_file w) true
                                          (cache_files w) (trace w)))) in
      let* ext := lift (match guess_extension E mime_type with
                        | Some e => Ok e
                        | None => Raise TypeError
                        end) in
      let new_url := path_join "cache" (fn +:+ ext) in
      do* (λ w, (Ok tt, log (EvWriteCache new_url (content r))
                            (mkWorld (urls_file w) (manifest_file w)
                                     (cache_dir w)
                                     ((new_url, content r) :: cache_files w)
                                     (trace w)))) in
      let img := <["url" := VStr (prefix +:+ new_url)]> img in
      let img := <["cached" := VBool true]> img in
      ret img.

(** [Chooser.download_uncached]; [None] is Python's [None]. *)
Definition download_uncached (manifest : Manifest) : M (option Manifest) :=
  match api_key cfg with
  | None => ret None
  | Some key =>
      let cache := generate_cached_image (cache_prefix cfg) key in
      let* imgs := lift (get_img manifest) in
      let* imgs := mapM cache imgs in
      let manifest := set_img imgs manifest in
      let* manifest := update_manifest manifest in
      ret (Some manifest)
  end.

(** [p['img']] for the [p] that [download_uncached] returned. *)
Definition subscript_img (p : option Manifest) : result (list Img) :=
  match p with
  | Some m => get_img m
  | None => Raise TypeError
  end.

(** [Chooser.respond]; [rnd] drives [random.choice]. *)
Definition respond (rnd : nat) : M unit :=
  let* p := try_except get_json (ret empty_manifest) in
  let* p := update_cache p in
  let* p := download_uncached p in
  try_except
    (let* imgs := lift (subscript_img p) in
     let* img := lift (choice rnd (filter is_valid imgs)) in
     give_response (Some img) "success")
    (give_response None "failure").

End Chooser.

(** ** Shapes of a source list file *)

Fixpoint no_newline (s : string) : bool :=
  match s with
  | EmptyString => true
  | String c s' => negb (is_nl c) && no_newline s'
  end.

(** Empty, or ending in a newline. *)
Fixpoint newline_terminated (s : string) : bool :=
  match s with
  | EmptyString => true
  | String c s' =>
      match s' with
      | EmptyString => is_nl c
      | _ => newline_terminated s'
      end
  end.

Fixpoint ends_with_nl (s : string) : bool :=
  match s with
  | EmptyString => false
  | String c s' =>
      match s' with
      | EmptyString => is_nl c
      | _ => ends_with_nl s'
      end
  end.

(** What may stand before the newline of a line: no character of it ends
    the line. *)
Fixpoint line_body (u : string) : bool :=
  match u with
  | EmptyString => true
  | String c u' => negb (ends_line c (u' +:+ NL)) && line_body u'
  end.

(** A line ended by its newline, as [readlines] returns it. *)
Definition line (s : string) : Prop :=
  ∃ u, line_body u = true ∧ no_newline u = true ∧ s = u +:+ NL.

(** The file ["a<form feed>b<newline>"]. *)
Definition form_feed_file : string :=
  String "a" (String "012" (String "b" NL)).

(** ** Notions the properties are stated with *)

(** The records [update_cache] builds from the source list and the cache
    directory, before they are fetched. *)
Definition candidates (E : Env) (cfg : Config) (c : string) : list Img :=
  ((λ url, ({["url" := VStr url]} : Img))
     <$> iterate E (readlines c) (parse_urls (readlines c)))
  ++ (cached_record E cfg <$> glob E (cache_prefix cfg +:+ "/*")).


(** The two stores agree: the URLs of the source list file are exactly
    the [url] values of the error-free records of the persisted manifest. *)
Definition stores_consistent (w : World) : Prop :=
  ∃ c m imgs,
    urls_file w = Some c
    ∧ manifest_file w = Some m
    ∧ m_img m = Some imgs
    ∧ ∀ u, u ∈ parse_urls (readlines c)
           ↔ ∃ img, img ∈ imgs ∧ is_valid img ∧ img !! "url" = Some (VStr u).

(** The network calls and the file writes of a run, in order. *)
Definition network_calls (w : World) : list event :=
  filter (λ e, is_network e) (trace w).
Definition writes (w : World) : list event :=
  filter (λ e, is_write e) (trace w).

(** The responses emitted during a run, in order. *)
Definition is_respond (e : event) : bool :=
  match e with
  | EvRespond _ _ => true
  | _ => false
  end.
Definition responses (w : World) : list event :=
  filter (λ e, is_respond e) (trace w).

(** The response a run ended with. *)
Definition response_of (w : World) : option (string * option Img) :=
  match last (trace w) with
  | Some (EvRespond status data) => Some (status, data)
  | _ => None
  end.

(** ** A concrete environment

    One reachable image, a shrink service that answers [created], an empty
    cache directory and a toy hash.  Used to run the program on inputs. *)

Definition ok_jpeg : response :=
  mkResponse 200 {["Content-Type" := "image/jpeg"]} "JPEG".

Definition not_found : response := mkResponse 404 ∅ "".

Definition created_png : response :=
  mkResponse 201 {["Date" := "Wed, 04 Nov 2026 00:00:00 GMT"]} "{}".

Definition too_many : response :=
  mkResponse 429 {["Date" := "Wed, 04 Nov 2026 00:00:00 GMT"]} "{}".

Definition env0 : Env := {|
  set_slot := λ _ _, 0%nat;
  sha1_hex := λ s, "sha1:" +:+ s;
  json_dumps := λ m, "manifest:" +:+ default "" (m_hash m);
  http_get := λ u,
    if bool_decide (u = "http://a/x.jpg") then Ok ok_jpeg
    else if bool_decide (u = "https://api.tinify.com/output/img.png")
         then Ok (mkResponse 200 ∅ "PNG")
    else Ok not_found;
  tinify_shrink := λ key u,
    if bool_decide (key = "k") then Ok created_png else Ok too_many;
  shrink_output := λ _, Ok ("https://api.tinify.com/output/img.png", "image/png");
  glob := λ _, [];
  guess_type := λ _, None;
  guess_extension := λ t,
    if bool_decide (t = "image/png") then Some ".png" else None
|}.

(** The same, with one file already in the cache directory. *)
Definition env_cached : Env :=
  mkEnv (set_slot env0) (sha1_hex env0) (json_dumps env0) (http_get env0)
        (tinify_shrink env0) (shrink_output env0)
        (λ _, ["cache/old.png"]) (guess_type env0) (guess_extension env0).

Definition cfg_nokey : Config := mkConfig "/chooser/" None.
Definition cfg_key : Config := mkConfig "/chooser/" (Some "k").
Definition cfg_badkey : Config := mkConfig "/chooser/" (Some "bad").

Definition world0 (urls : option string) (m : option Manifest) : World :=
  mkWorld urls m false [] [].

Definition img_x : Img := {["url" := VStr "http://a/x.jpg"]}.

(** * Properties *)

(** ** Lines *)

Lemma readlines_nil s : readlines s = [] → s = "".
Proof.
  destruct s as [|c s]; [done|]. simpl.
  destruct (ends_line c s); [done|]. by destruct (readlines s).
Qed.

Lemma readlines_no_empty s ls : readlines s ≠ "" :: ls.
Proof.
  destruct s as [|c s]; [done|]. simpl.
  destruct (ends_line c s); [done|]. by destruct (readlines s).
Qed.

Lemma readlines_head s l ls :
  readlines s = l :: ls → starts_with_nl l = starts_with_nl s.
Proof.
  destruct s as [|c s]; [done|]. simpl.
  destruct (ends_line c s); [by intros [= <- _]|].
  destruct (readlines s); by intros [= <- _].
Qed.

Lemma ends_line_nl rest : ends_line nl rest = true.
Proof. done. Qed.

Lemma ends_line_starts c s1 s2 :
  starts_with_nl s1 = starts_with_nl s2 → ends_line c s1 = ends_line c s2.
Proof. unfold ends_line. by intros ->. Qed.

Lemma append_cons (c : ascii) (a b : string) :
  String c a +:+ b = String c (a +:+ b).
Proof. done. Qed.

Lemma append_assoc (a b c : string) : (a +:+ b) +:+ c = a +:+ (b +:+ c).
Proof.
  induction a as [|x a IH]; [done|]. by rewrite !append_cons, IH.
Qed.

Lemma starts_with_nl_line u rest :
  starts_with_nl (u +:+ NL +:+ rest) = starts_with_nl (u +:+ NL).
Proof. by destruct u. Qed.

(** The lines [readlines] returns: a newline is always the last character
    of its line, and no character before it ends the line. *)
Lemma readlines_shape s :
  Forall (λ l, ∀ u, l = u +:+ NL → line_body u = true ∧ no_newline u = true)
         (readlines s).
Proof.
  assert (∀ c u, String c "" = u +:+ NL →
                 line_body u = true ∧ no_newline u = true) as Hone.
  { intros c [|c' [|c'' u]] Hu; by simplify_eq. }
  induction s as [|c s IH]; [constructor|]. simpl.
  destruct (ends_line c s) eqn:He.
  { constructor; [apply Hone|exact IH]. }
  destruct (readlines s) as [|l ls] eqn:Hr.
  { constructor; [apply Hone|constructor]. }
  inversion IH as [|? ? Hl Hls]; subst. constructor; [|done].
  intros [|c' u] Hu.
  - change ("" +:+ NL) with (String nl "") in Hu. injection Hu as -> ->.
    by apply readlines_no_empty in Hr.
  - rewrite append_cons in Hu. injection Hu as <- ->.
    destruct (Hl u eq_refl) as [Hb Hn]. simpl. rewrite Hb, Hn.
    rewrite (ends_line_starts c (u +:+ NL) s), He
      by (by apply readlines_head in Hr).
    split; [done|]. unfold is_nl. case_bool_decide as Hc; [|done].
    subst c. by rewrite ends_line_nl in He.
Qed.

Lemma ends_with_nl_inv l : ends_with_nl l = true → ∃ u, l = u +:+ NL.
Proof.
  induction l as [|c l IH]; [done|]. simpl. destruct l as [|c' l'].
  - unfold is_nl. intros ->%bool_decide_eq_true. by exists "".
  - intros [u Hu]%IH. exists (String c u). by rewrite append_cons, Hu.
Qed.

Lemma readlines_lines s :
  Forall (λ l, ends_with_nl l = true) (readlines s) → Forall line (readlines s).
Proof.
  intros He. pose proof (readlines_shape s) as Hs.
  induction He as [|l ls Hl _ IH]; [constructor|].
  inversion Hs as [|? ? Hsl Hsls]; subst. constructor; [|by apply IH].
  destruct (ends_with_nl_inv l Hl) as [u ->].
  destruct (Hsl u eq_refl) as [Hb Hn]. by exists u.
Qed.

Lemma readlines_line_cons u rest :
  line_body u = true →
  readlines (u +:+ NL +:+ rest) = (u +:+ NL) :: readlines rest.
Proof.
  induction u as [|c u IH]; intros Hu; [done|].
  simpl in Hu. apply andb_prop in Hu as [Hc Hu].
  rewrite !append_cons. simpl.
  rewrite (ends_line_starts c _ (u +:+ NL)) by apply starts_with_nl_line.
  destruct (ends_line c (u +:+ NL)); [done|]. by rewrite (IH Hu).
Qed.

Lemma readlines_join ls : Forall line ls → readlines (join ls) = ls.
Proof.
  induction 1 as [|l ls (u & Hb & Hn & ->) _ IH]; [done|]. simpl.
  rewrite append_assoc, readlines_line_cons by done.
  by rewrite IH.
Qed.

Lemma rstrip_nl_line u : no_newline u = true → rstrip_nl (u +:+ NL) = u.
Proof.
  induction u as [|c u IH]; intros Hu; [done|].
  simpl in *. apply andb_prop in Hu as [Hc Hu].
  rewrite (IH Hu). by destruct (is_nl c).
Qed.

Lemma lstrip_nl_line u :
  no_newline u = true → lstrip_nl (u +:+ NL) = if u is "" then "" else u +:+ NL.
Proof.
  destruct u as [|c u]; [done|]. simpl. intros Hu.
  apply andb_prop in Hu as [Hc Hu]. by destruct (is_nl c).
Qed.

Lemma strip_nl_line u : no_newline u = true → strip_nl (u +:+ NL) = u.
Proof.
  intros Hu. unfold strip_nl. rewrite lstrip_nl_line by done.
  destruct u; [done|]. by apply rstrip_nl_line.
Qed.

Lemma lines_strip ls :
  Forall line ls →
  (λ u, u +:+ NL) <$> (strip_nl <$> ls) = ls
  ∧ Forall (λ u, line (u +:+ NL)) (strip_nl <$> ls).
Proof.
  induction 1 as [|l ls (u & Hb & Hn & ->) _ [IH1 IH2]]; [by split|].
  csimpl. rewrite strip_nl_line by done. split; [by f_equal|].
  constructor; [by exists u|done].
Qed.

Lemma url_lines_strings (l : list string) :
  url_lines (VStr <$> l) = Ok ((λ u, u +:+ NL) <$> l).
Proof.
  unfold url_lines. induction l as [|u l IH]; [done|].
  csimpl. by rewrite IH.
Qed.

Lemma append_NL_inj u u' : u +:+ NL = u' +:+ NL → u = u'.
Proof.
  revert u'. induction u as [|c u IH]; intros [|c' u'] Heq; [done|..].
  - rewrite append_cons in Heq. injection Heq as _ Heq. by destruct u'.
  - rewrite append_cons in Heq. injection Heq as _ Heq. by destruct u.
  - rewrite !append_cons in Heq. injection Heq as -> Heq. f_equal. by apply IH.
Qed.

Lemma line_inv u : line (u +:+ NL) → no_newline u = true.
Proof.
  intros (u' & _ & Hn & Heq). by apply append_NL_inj in Heq as ->.
Qed.

Lemma strip_add_newline (l : list string) :
  Forall (λ u, line (u +:+ NL)) l →
  strip_nl <$> ((λ u, u +:+ NL) <$> l) = l.
Proof.
  induction 1 as [|u l Hu _ IH]; [done|].
  csimpl. by rewrite strip_nl_line, IH by by apply line_inv.
Qed.

(** ** C9: the source list through a read and a write *)

(** C9, refuted as stated: the file ["a<form feed>b<newline>"] ends in a
    newline and has no repeated line; it is read as the two URLs
    ["a<form feed>"] and ["b"]; written back in either order and read
    again, it also yields the empty URL. *)
Lemma round_trip_form_feed :
  newline_terminated form_feed_file = true
  ∧ NoDup (readlines form_feed_file)
  ∧ ∀ order w,
      order ≡ₚ elements (parse_urls (readlines form_feed_file)) →
      ∃ c', (update_urls (VStr <$> order) w).1 = Ok tt
            ∧ urls_file (update_urls (VStr <$> order) w).2 = Some c'
            ∧ ("" ∉ parse_urls (readlines form_feed_file))
            ∧ ("" ∈ parse_urls (readlines c')).
Proof.
  split; [done|]. split; [apply (bool_decide_unpack _); by vm_compute|].
  intros order w Hord.
  assert (elements (parse_urls (readlines form_feed_file))
          ≡ₚ [String "a" (String "012" ""); "b"]) as He.
  { apply NoDup_Permutation.
    - apply NoDup_elements.
    - apply (bool_decide_unpack _). by vm_compute.
    - intros x. rewrite elem_of_elements. unfold parse_urls.
      by rewrite elem_of_list_to_set. }
  rewrite He in Hord. symmetry in Hord.
  apply Permutation_length_2_inv in Hord as [->| ->];
    eexists; (split; [reflexivity|]); (split; [reflexivity|]);
    split; apply (bool_decide_unpack _); by vm_compute.
Qed.

(** C9, amended.  For every source list file whose lines, as the program
    reads them, are pairwise distinct and end each in a newline: reading it
    as [update_cache] does (strip the newline of every line, collect the
    set) and writing the set back as [update_urls] does (one URL and a
    newline each), in whatever order the set is iterated, succeeds and
    yields a file with the same set of URLs; the lines written are a
    permutation of the lines read. *)
Theorem url_list_round_trip (c : string) (order : list string) (w : World) :
  Forall (λ l, ends_with_nl l = true) (readlines c) →
  NoDup (readlines c) →
  order ≡ₚ elements (parse_urls (readlines c)) →
  ∃ c',
    (update_urls (VStr <$> order) w).1 = Ok tt
    ∧ urls_file (update_urls (VStr <$> order) w).2 = Some c'
    ∧ parse_urls (readlines c') = parse_urls (readlines c)
    ∧ readlines c' ≡ₚ readlines c.
Proof.
  intros Ht Hnd Hord.
  destruct (lines_strip (readlines c) (readlines_lines c Ht)) as [Hl Hnn].
  set (l := strip_nl <$> readlines c) in *.
  assert (NoDup l) as Hndl.
  { apply (NoDup_fmap_1 (λ u, u +:+ NL)). by rewrite Hl. }
  assert (order ≡ₚ l) as Hperm.
  { rewrite Hord. unfold parse_urls. fold l. by apply elements_list_to_set. }
  assert (Forall (λ u, line (u +:+ NL)) order) as Hno.
  { by rewrite Hperm. }
  assert (Forall line ((λ u, u +:+ NL) <$> order)) as Hlines.
  { by apply Forall_fmap. }
  exists (join ((λ u, u +:+ NL) <$> order)).
  unfold update_urls. rewrite url_lines_strings. simpl.
  split; [done|]. split; [done|].
  rewrite readlines_join by done. split.
  - unfold parse_urls. fold l. rewrite strip_add_newline by done.
    by apply list_to_set_perm_L.
  - rewrite <- Hl. by apply fmap_Permutation.
Qed.

Lemma url_list_round_trip_witness :
  ∃ c',
    (update_urls (VStr <$> ["http://a/x.jpg"; "http://b/y.png"])
                 (world0 None None)).1 = Ok tt
    ∧ urls_file (update_urls (VStr <$> ["http://a/x.jpg"; "http://b/y.png"])
                             (world0 None None)).2 = Some c'
    ∧ parse_urls (readlines c')
      = parse_urls (readlines ("http://b/y.png" +:+ NL +:+ "http://a/x.jpg" +:+ NL))
    ∧ readlines c'
      ≡ₚ readlines ("http://b/y.png" +:+ NL +:+ "http://a/x.jpg" +:+ NL).
Proof.
  apply (url_list_round_trip
           ("http://b/y.png" +:+ NL +:+ "http://a/x.jpg" +:+ NL)
           ["http://a/x.jpg"; "http://b/y.png"]).
  - apply (bool_decide_unpack _). vm_compute. exact I.
  - apply (bool_decide_unpack _). vm_compute. exact I.
  - vm_compute. reflexivity.
Defined.

(** ** Running the monad *)

Ltac unfold_monad :=
  unfold bind, ret, raise, lift, try_except in *.

Lemma is_cached_true (img : Img) :
  img !! "cached" = Some (VBool true) → is_cached img = true.
Proof. unfold is_cached. by intros ->. Qed.

(** ** C7: a cached record is not compressed again *)

(** C7.  For every record whose [cached] field is [true], the function
    returned by [generate_cached_image] returns the record as it is and
    leaves the world, and with it the trace of network calls and file
    writes, untouched. *)
Theorem cached_image_skipped (E : Env) (prefix key : string) (img : Img)
    (w : World) :
  img !! "cached" = Some (VBool true) →
  generate_cached_image E prefix key img w = (Ok img, w)
  ∧ network_calls (generate_cached_image E prefix key img w).2
    = network_calls w.
Proof.
  intros Hc. unfold generate_cached_image.
  by rewrite (is_cached_true img Hc).
Qed.

Lemma cached_image_skipped_witness :
  generate_cached_image env0 "/chooser/" "k"
    (<["cached" := VBool true]> img_x) (world0 None None)
  = (Ok (<["cached" := VBool true]> img_x), world0 None None)
  ∧ network_calls
      (generate_cached_image env0 "/chooser/" "k"
         (<["cached" := VBool true]> img_x) (world0 None None)).2
    = network_calls (world0 None None).
Proof.
  apply (cached_image_skipped env0 "/chooser/" "k"
           (<["cached" := VBool true]> img_x) (world0 None None)).
  vm_compute. reflexivity.
Defined.

(** ** C10: what a failed shrink leaves on the record *)

(** C10.  For every record that is not cached, when the shrink service
    answers with a status other than [created], the compressor returns the
    record with [error] set to that status, and also with [original_url] set
    to the record's URL and [last_cached] set to the [Date] header of the
    answer; all other fields are as before. *)
Theorem failed_shrink_fields (E : Env) (prefix key : string) (img : Img)
    (u : value) (r : response) (d : string) (w : World) :
  is_cached img = false →
  img !! "url" = Some u →
  tinify_shrink E key u = Ok r →
  headers r !! "Date" = Some d →
  status_code r ≠ codes_created →
  ∃ img',
    (generate_cached_image E prefix key img w).1 = Ok img'
    ∧ img' !! "error" = Some (VInt (status_code r))
    ∧ img' !! "original_url" = Some u
    ∧ img' !! "last_cached" = Some (VStr d)
    ∧ ∀ k, k ≠ "error" → k ≠ "original_url" → k ≠ "last_cached" →
           img' !! k = img !! k.
Proof.
  intros Hc Hu Hr Hd Hs.
  exists (<["error" := VInt (status_code r)]>
            (<["last_cached" := VStr d]> (<["original_url" := u]> img))).
  split.
  - unfold generate_cached_image, requests_post, getitem. unfold_monad.
    rewrite Hc, Hu. simpl. rewrite Hr, Hd. simpl.
    by rewrite bool_decide_eq_true_2.
  - repeat split; intros; by simplify_map_eq.
Qed.

Lemma failed_shrink_fields_witness :
  ∃ img',
    (generate_cached_image env0 "/chooser/" "bad" img_x (world0 None None)).1
    = Ok img'
    ∧ img' !! "error" = Some (VInt (status_code too_many))
    ∧ img' !! "original_url" = Some (VStr "http://a/x.jpg")
    ∧ img' !! "last_cached" = Some (VStr "Wed, 04 Nov 2026 00:00:00 GMT")
    ∧ ∀ k, k ≠ "error" → k ≠ "original_url" → k ≠ "last_cached" →
           img' !! k = img_x !! k.
Proof.
  apply (failed_shrink_fields env0 "/chooser/" "bad" img_x
           (VStr "http://a/x.jpg") too_many
           "Wed, 04 Nov 2026 00:00:00 GMT" (world0 None None)).
  - vm_compute. reflexivity.
  - vm_compute. reflexivity.
  - vm_compute. reflexivity.
  - vm_compute. reflexivity.
  - vm_compute. discriminate.
Defined.

(** ** C6: the validation fetch *)

(** C6, refuted as stated: a record that carries [error = 404] and whose
    URL is then fetched with status 200 comes back with its [mime_type] set
    but still carrying [error = 404]. *)
Lemma fetch_keeps_error :
  http_get env0 "http://a/x.jpg" = Ok ok_jpeg
  ∧ status_code ok_jpeg = codes_ok
  ∧ is_cached (<["error" := VInt 404]> img_x) = false
  ∧ ∃ img',
      (fetch env0 (<["error" := VInt 404]> img_x) (world0 None None)).1
      = Ok img'
      ∧ img' !! "mime_type" = Some (VStr "image/jpeg")
      ∧ img' !! "error" = Some (VInt 404).
Proof.
  repeat split; try (vm_compute; reflexivity).
  eexists. repeat split; vm_compute; reflexivity.
Qed.

(** C6, amended.  For every record that is not cached and whose URL is
    retrieved with answer [r]: on status [ok] the record comes back with
    [mime_type] set to the declared content type, or to ["img/jpeg"] when
    none is declared, and every other field, [error] included, as it was;
    on any other status it comes back with [error] set to the status code
    and every other field as it was.  One retrieval is made. *)
Theorem fetch_outcome (E : Env) (img : Img) (u : string) (r : response)
    (w : World) :
  is_cached img = false →
  img !! "url" = Some (VStr u) →
  http_get E u = Ok r →
  fetch E img w
  = (Ok (if bool_decide (status_code r = codes_ok)
         then <["mime_type" :=
                  VStr (default "img/jpeg" (headers r !! "Content-Type"))]> img
         else <["error" := VInt (status_code r)]> img),
     log (EvGet u) w).
Proof.
  intros Hc Hu Hr. unfold fetch, requests_get, getitem. unfold_monad.
  rewrite Hc, Hu. simpl. rewrite Hr.
  destruct (decide (status_code r = codes_ok)) as [Heq|Hne].
  - rewrite bool_decide_eq_false_2 by (intros ?; done).
    by rewrite bool_decide_eq_true_2.
  - rewrite bool_decide_eq_true_2 by done.
    by rewrite bool_decide_eq_false_2.
Qed.

Lemma fetch_outcome_witness :
  fetch env0 img_x (world0 None None)
  = (Ok (if bool_decide (status_code ok_jpeg = codes_ok)
         then <["mime_type" :=
                  VStr (default "img/jpeg"
                          (headers ok_jpeg !! "Content-Type"))]> img_x
         else <["error" := VInt (status_code ok_jpeg)]> img_x),
     log (EvGet "http://a/x.jpg") (world0 None None)).
Proof.
  apply (fetch_outcome env0 img_x "http://a/x.jpg" ok_jpeg (world0 None None)).
  - vm_compute. reflexivity.
  - vm_compute. reflexivity.
  - vm_compute. reflexivity.
Defined.

(** ** C8: the validity filter *)

Lemma mapR_elem_of {A B} (f : A → result B) (l : list A) (out : list B) :
  mapR f l = Ok out → ∀ b, b ∈ out ↔ ∃ a, a ∈ l ∧ f a = Ok b.
Proof.
  revert out. induction l as [|a l IH]; intros out Hm b; simpl in Hm.
  - injection Hm as <-. split; [by intros ?%elem_of_nil|].
    by intros (a & ?%elem_of_nil & _).
  - destruct (f a) as [b0|] eqn:Hfa; [|done].
    destruct (mapR f l) as [bs|] eqn:Hl; [|done].
    injection Hm as <-. rewrite elem_of_cons, (IH bs eq_refl b). split.
    + intros [->|(a' & Ha' & Hf)];
        [exists a; split; [by left|done]|exists a'; split; [by right|done]].
    + intros (a' & [->|Ha']%elem_of_cons & Hf); [left; congruence|right; eauto].
Qed.

Lemma valid_urls_elem_of (imgs : list Img) (out : list value) :
  valid_urls imgs = Ok out →
  ∀ v, v ∈ out ↔ ∃ img, img ∈ imgs ∧ is_valid img ∧ img !! "url" = Some v.
Proof.
  intros Hv v. unfold valid_urls in Hv.
  rewrite (mapR_elem_of _ _ _ Hv v). split.
  - intros (img & [Hval Hin]%list_elem_of_filter & Hg). exists img.
    repeat split; [done..|]. unfold getitem in Hg.
    by destruct (img !! "url"); simplify_eq.
  - intros (img & Hin & Hval & Hu). exists img. split.
    + by apply list_elem_of_filter.
    + unfold getitem. by rewrite Hu.
Qed.

(** C8, refuted as stated: of two records with the same URL, the first
    carrying an error and the second not, the URL of the first is in the
    output of [valid_urls] although the record has [error] set. *)
Lemma valid_urls_shared_url :
  let bad : Img := <["error" := VInt 404]> img_x in
  bad ∈ [bad; img_x]
  ∧ bad !! "url" = Some (VStr "http://a/x.jpg")
  ∧ valid_urls [bad; img_x] = Ok [VStr "http://a/x.jpg"]
  ∧ ¬ (VStr "http://a/x.jpg" ∈ [VStr "http://a/x.jpg"] ↔ is_valid bad).
Proof.
  simpl. split; [by left|]. split; [by vm_compute|].
  split; [by vm_compute|]. intros [Hin _].
  specialize (Hin ltac:(by left)). vm_compute in Hin. discriminate.
Qed.

(** C8, amended.  For every list of records in which a record is the only
    one with its URL, and on which [valid_urls] returns, the record's URL is
    in the output if and only if the record has no [error] field. *)
Theorem valid_urls_iff_no_error (imgs : list Img) (out : list value)
    (img : Img) (u : value) :
  valid_urls imgs = Ok out →
  img ∈ imgs →
  img !! "url" = Some u →
  (∀ img', img' ∈ imgs → img' !! "url" = Some u → img' = img) →
  u ∈ out ↔ is_valid img.
Proof.
  intros Hv Hin Hu Hkey. rewrite (valid_urls_elem_of imgs out Hv u). split.
  - intros (img' & Hin' & Hval & Hu'). by rewrite <- (Hkey img' Hin' Hu').
  - intros Hval. by exists img.
Qed.

Lemma valid_urls_iff_no_error_witness :
  VStr "http://a/x.jpg"
    ∈ [VStr "http://a/x.jpg"]
  ↔ is_valid img_x.
Proof.
  apply (valid_urls_iff_no_error
           [img_x; <["error" := VInt 404]> {["url" := VStr "http://b/y.png"]}]
           [VStr "http://a/x.jpg"] img_x (VStr "http://a/x.jpg")).
  - vm_compute. reflexivity.
  - apply (bool_decide_unpack _). vm_compute. exact I.
  - vm_compute. reflexivity.
  - intros img' Hin Hu. apply elem_of_cons in Hin as [->|Hin]; [done|].
    apply list_elem_of_singleton in Hin as ->. vm_compute in Hu. discriminate.
Defined.

(** ** Reconciliation, step by step *)

Lemma iterate_Permutation (E : Env) (lines : list string)
    (urls : gset string) :
  iterate E lines urls ≡ₚ elements urls.
Proof. apply merge_sort_Permutation. Qed.

Lemma elem_of_iterate (E : Env) (lines : list string) (urls : gset string)
    (u : string) :
  u ∈ iterate E lines urls ↔ u ∈ urls.
Proof. by rewrite iterate_Permutation, elem_of_elements. Qed.

Lemma iterate_empty (E : Env) (lines : list string) : iterate E lines ∅ = [].
Proof. unfold iterate. by rewrite elements_empty. Qed.

Lemma filter_valid_id (l : list Img) :
  Forall is_valid l → filter is_valid l = l.
Proof.
  induction 1 as [|img l Hv _ IH]; [done|].
  rewrite filter_cons_True by done. by rewrite IH.
Qed.

Lemma filter_valid_Forall (l : list Img) : Forall is_valid (filter is_valid l).
Proof. apply Forall_forall. by intros img [? _]%list_elem_of_filter. Qed.

(** The fast path: the stored hash is the hash of the source list. *)
Lemma update_cache_fast (E : Env) (cfg : Config) (p : Manifest) (w : World)
    (c : string) :
  urls_file w = Some c →
  m_hash p = Some (sha1_hex E c) →
  update_cache E cfg p w = (Ok p, w).
Proof.
  intros Hc Hh. unfold update_cache, sha1. unfold_monad.
  rewrite Hc. by rewrite bool_decide_eq_true_2.
Qed.

(** The rebuild: what a returning [update_cache] has done when the stored
    hash was not the hash of the source list. *)
Lemma update_cache_rebuild (E : Env) (cfg : Config) (p p1 : Manifest)
    (w w1 : World) (c : string) :
  urls_file w = Some c →
  m_hash p ≠ Some (sha1_hex E c) →
  update_cache E cfg p w = (Ok p1, w1) →
  ∃ fetched w' us lines,
    mapM (fetch E) (candidates E cfg c) w = (Ok fetched, w')
    ∧ p1 = (let q := set_img (filter is_valid fetched)
                             (set_hash (sha1_hex E c) p) in
            set_id (sha1_dict E q) q)
    ∧ mapR (getitem "url") (filter is_valid fetched) = Ok us
    ∧ url_lines us = Ok lines
    ∧ w1 = log (EvWriteUrls (join lines))
               (mkWorld (Some (join lines)) (Some p1) (cache_dir w')
                        (cache_files w') (trace w' ++ [EvWriteManifest p1])).
Proof.
  intros Hc Hh Hrun. unfold update_cache, sha1, read_urls in Hrun.
  unfold_monad. rewrite Hc in Hrun.
  rewrite bool_decide_eq_false_2 in Hrun by done.
  rewrite Hc in Hrun. fold (candidates E cfg c) in Hrun.
  destruct (mapM (fetch E) (candidates E cfg c) w) as [[fetched|e] w'] eqn:Hf;
    [|done].
  simpl in Hrun.
  destruct (mapR (getitem "url") (filter is_valid fetched)) as [us|e] eqn:Hus;
    [|done].
  unfold update_urls in Hrun.
  destruct (url_lines us) as [lines|e] eqn:Hl; [|done].
  simpl in Hrun. injection Hrun as <- <-.
  by exists fetched, w', us, lines.
Qed.

(** ** C3: reconciling twice *)

(** C3, refuted as stated: a source list of a reachable and an unreachable
    URL, and no manifest.  The first invocation stores the hash of that
    file and then rewrites the file without the unreachable URL.  The second
    invocation, on the manifest and the world the first one left, nobody
    having touched the file, finds another hash: it fetches again and writes
    the manifest and the source list again. *)
Lemma update_cache_second_call_rebuilds :
  let w := world0 (Some ("http://a/x.jpg" +:+ NL +:+ "http://b/y.png" +:+ NL))
                  None in
  ∃ p1 w1,
    update_cache env0 cfg_nokey empty_manifest w = (Ok p1, w1)
    ∧ urls_file w1 = Some ("http://a/x.jpg" +:+ NL)
    ∧ update_cache env0 cfg_nokey p1 w1 ≠ (Ok p1, w1)
    ∧ network_calls (update_cache env0 cfg_nokey p1 w1).2
      = network_calls w1 ++ [EvGet "http://a/x.jpg"]
    ∧ length (writes (update_cache env0 cfg_nokey p1 w1).2)
      = (length (writes w1) + 2)%nat.
Proof.
  eexists _, _. split; [vm_compute; reflexivity|].
  split; [by vm_compute|]. split; [|split; by vm_compute].
  intros Heq. apply (f_equal (λ r, length (trace r.2))) in Heq.
  vm_compute in Heq. discriminate.
Qed.

(** C3, amended.  When [update_cache] has returned and its own rewrite of
    the source list has left the file with the content it had when the
    call started, a second invocation on the manifest it left returns that
    manifest as it is ([id] included) and leaves the world as it is: the
    trace gains no fetch and no write. *)
Theorem update_cache_idempotent (E : Env) (cfg : Config) (p p1 : Manifest)
    (w w1 : World) :
  update_cache E cfg p w = (Ok p1, w1) →
  urls_file w1 = urls_file w →
  update_cache E cfg p1 w1 = (Ok p1, w1)
  ∧ network_calls (update_cache E cfg p1 w1).2 = network_calls w1
  ∧ writes (update_cache E cfg p1 w1).2 = writes w1.
Proof.
  intros Hrun Hsame.
  enough (update_cache E cfg p1 w1 = (Ok p1, w1)) as -> by done.
  destruct (urls_file w) as [c|] eqn:Hc.
  - destruct (decide (m_hash p = Some (sha1_hex E c))) as [Hh|Hh].
    + rewrite (update_cache_fast E cfg p w c Hc Hh) in Hrun.
      injection Hrun as <- <-. by apply (update_cache_fast E cfg p w c).
    + destruct (update_cache_rebuild E cfg p p1 w w1 c Hc Hh Hrun)
        as (fetched & w' & us & lines & _ & Hp1 & _).
      apply (update_cache_fast E cfg p1 w1 c Hsame). by rewrite Hp1.
  - unfold update_cache, sha1 in Hrun. unfold_monad. by rewrite Hc in Hrun.
Qed.

Lemma update_cache_idempotent_witness :
  ∃ p1 w1,
    update_cache env0 cfg_nokey empty_manifest
      (world0 (Some ("http://a/x.jpg" +:+ NL)) None) = (Ok p1, w1)
    ∧ update_cache env0 cfg_nokey p1 w1 = (Ok p1, w1)
    ∧ network_calls (update_cache env0 cfg_nokey p1 w1).2 = network_calls w1
    ∧ writes (update_cache env0 cfg_nokey p1 w1).2 = writes w1.
Proof.
  eexists _, _. split.
  - vm_compute. reflexivity.
  - apply (update_cache_idempotent env0 cfg_nokey empty_manifest _
             (world0 (Some ("http://a/x.jpg" +:+ NL)) None)).
    + vm_compute. reflexivity.
    + vm_compute. reflexivity.
Defined.

(** ** C4: the source list and the manifest after a cycle *)

Lemma generate_cached_image_urls_file (E : Env) (prefix key : string)
    (img : Img) (w : World) :
  urls_file (generate_cached_image E prefix key img w).2 = urls_file w.
Proof.
  unfold generate_cached_image, requests_post, requests_get, getitem.
  unfold_monad.
  repeat (case_match; simplify_eq; simpl; try done).
Qed.

Lemma mapM_urls_file {A B} (f : A → M B) (l : list A) (w : World) :
  (∀ a w, urls_file (f a w).2 = urls_file w) →
  urls_file (mapM f l w).2 = urls_file w.
Proof.
  intros Hf. revert w. induction l as [|a l IH]; intros w; [done|].
  simpl. unfold_monad. specialize (Hf a w).
  destruct (f a w) as [[b|e] w'] eqn:Hfa; simpl in *; [|done].
  specialize (IH w'). destruct (mapM f l w') as [[bs|e] w'']; simpl in *;
    congruence.
Qed.

Lemma download_uncached_urls_file (E : Env) (cfg : Config) (m : Manifest)
    (w : World) :
  urls_file (download_uncached E cfg m w).2 = urls_file w.
Proof.
  unfold download_uncached. destruct (api_key cfg) as [key|]; [|done].
  unfold_monad. destruct (get_img m) as [imgs|e]; [|done]. simpl.
  pose proof (mapM_urls_file (generate_cached_image E (cache_prefix cfg) key)
                imgs w (generate_cached_image_urls_file E _ key)) as Hm.
  by destruct (mapM _ imgs w) as [[imgs'|e] w'].
Qed.

(** C4, refuted as stated: with an API key, one reachable URL in the source
    list and a shrink service that answers [created], [respond] ends with a
    success response, the persisted manifest holds the record under its
    local cache path, and the source list file still holds the remote URL. *)
Lemma respond_stores_apart :
  let r := respond env0 cfg_key 0
             (world0 (Some ("http://a/x.jpg" +:+ NL)) None) in
  r.1 = Ok tt
  ∧ (∃ img, response_of r.2 = Some ("success", Some img))
  ∧ ¬ stores_consistent r.2.
Proof.
  simpl. split; [by vm_compute|]. split; [eexists; by vm_compute|].
  intros (c & m & imgs & Hc & Hm & Hi & Hiff).
  vm_compute in Hc. injection Hc as <-.
  vm_compute in Hm. injection Hm as <-.
  vm_compute in Hi. injection Hi as <-.
  destruct (Hiff "http://a/x.jpg") as [Hto _].
  destruct Hto as (img & Hin & _ & Hu).
  { apply (bool_decide_unpack _). by vm_compute. }
  apply list_elem_of_singleton in Hin as ->. vm_compute in Hu. discriminate.
Qed.

(** C4, amended.  When [update_cache] rebuilds (the stored hash is not the
    hash of the source list) and returns, the manifest it persisted holds
    error-free records only, and the source list file consists of exactly
    their [url] values, one per line, each with its newline; the compression
    stage, whatever it does to the manifest, leaves the source list file as
    it is. *)
Theorem urls_file_after_rebuild (E : Env) (cfg : Config) (p p1 : Manifest)
    (w w1 : World) (c : string) :
  urls_file w = Some c →
  m_hash p ≠ Some (sha1_hex E c) →
  update_cache E cfg p w = (Ok p1, w1) →
  (∃ imgs us lines,
     manifest_file w1 = Some p1
     ∧ m_img p1 = Some imgs
     ∧ Forall is_valid imgs
     ∧ valid_urls imgs = Ok us
     ∧ url_lines us = Ok lines
     ∧ urls_file w1 = Some (join lines))
  ∧ urls_file (download_uncached E cfg p1 w1).2 = urls_file w1.
Proof.
  intros Hc Hh Hrun. split; [|apply download_uncached_urls_file].
  destruct (update_cache_rebuild E cfg p p1 w w1 c Hc Hh Hrun)
    as (fetched & w' & us & lines & _ & Hp1 & Hus & Hl & Hw1).
  exists (filter is_valid fetched), us, lines.
  split; [by rewrite Hw1|]. split; [by rewrite Hp1|].
  split; [apply filter_valid_Forall|].
  split; [|split; [done|by rewrite Hw1]].
  unfold valid_urls. by rewrite filter_valid_id by apply filter_valid_Forall.
Qed.

Lemma urls_file_after_rebuild_witness :
  let w := world0 (Some ("http://a/x.jpg" +:+ NL +:+ "http://b/y.png" +:+ NL))
                  None in
  let r := update_cache env0 cfg_key empty_manifest w in
  ∃ p1,
    r.1 = Ok p1
    ∧ (∃ imgs us lines,
         manifest_file r.2 = Some p1
         ∧ m_img p1 = Some imgs
         ∧ Forall is_valid imgs
         ∧ valid_urls imgs = Ok us
         ∧ url_lines us = Ok lines
         ∧ urls_file r.2 = Some (join lines))
    ∧ urls_file (download_uncached env0 cfg_key p1 r.2).2 = urls_file r.2.
Proof.
  simpl. eexists. split; [by vm_compute|].
  eapply (urls_file_after_rebuild env0 cfg_key empty_manifest _
            (world0 (Some ("http://a/x.jpg" +:+ NL +:+ "http://b/y.png" +:+ NL))
                    None)).
  - vm_compute. reflexivity.
  - vm_compute. discriminate.
  - vm_compute. reflexivity.
Defined.

(** ** C1, C2: the compression stage without a credential *)

(** C1.  Without an API key [download_uncached] returns Python's [None],
    not the manifest it was given; the world is left as it is. *)
Theorem download_uncached_without_key (E : Env) (prefix : string)
    (manifest : Manifest) (w : World) :
  download_uncached E (mkConfig prefix None) manifest w = (Ok None, w)
  ∧ (download_uncached E (mkConfig prefix None) manifest w).1
    ≠ Ok (Some manifest).
Proof. by split. Qed.

(** C2.  With the one URL ["http://a/x.jpg"] in the source list, a fetch
    of it that succeeds, no manifest yet and no API key, [respond] persists
    a manifest whose only record is that URL, error-free and not cached,
    and then emits the failure response, whatever the random draw. *)
Theorem respond_without_key (rnd : nat) :
  let r := respond env0 cfg_nokey rnd
             (world0 (Some ("http://a/x.jpg" +:+ NL)) None) in
  r.1 = Ok tt
  ∧ (∃ m img,
       manifest_file r.2 = Some m
       ∧ m_img m = Some [img]
       ∧ is_valid img
       ∧ is_cached img = false
       ∧ img !! "url" = Some (VStr "http://a/x.jpg"))
  ∧ response_of r.2 = Some ("failure", None).
Proof.
  simpl. split; [by vm_compute|]. split; [|by vm_compute].
  eexists _, _. split; [by vm_compute|]. split; [by vm_compute|].
  split; [by vm_compute|]. split; by vm_compute.
Qed.

(** ** C5: which failures [respond] absorbs *)

(** C5, refuted as stated: when the source list file cannot be read,
    [respond] raises [IOError] and emits no response. *)
Lemma respond_raises_without_source_list :
  let r := respond env0 cfg_nokey 0 (world0 None None) in
  r.1 = Raise IOError ∧ response_of r.2 = None.
Proof. by vm_compute. Qed.

Lemma choice_elem_of {A} (rnd : nat) (l : list A) (a : A) :
  choice rnd l = Ok a → a ∈ l.
Proof.
  unfold choice. destruct (l !! _) as [a'|] eqn:Hl; [|done].
  intros [= <-]. by eapply list_elem_of_lookup_2.
Qed.

(** C5, amended.  A manifest that cannot be loaded is replaced by the empty
    manifest, and every failure of the selection (no manifest returned by
    the compression stage, no [img] key, no valid record) ends in the
    failure response; an exception raised by the reconciliation or by the
    compression stage is raised by [respond] too.  So [respond] returns, with
    a success response carrying an error-free record or with the failure
    response, exactly when both stages return. *)
Theorem respond_recovery (E : Env) (cfg : Config) (rnd : nat) (w : World) :
  match update_cache E cfg (default empty_manifest (manifest_file w)) w with
  | (Raise e, w1) => respond E cfg rnd w = (Raise e, w1)
  | (Ok p1, w1) =>
      match download_uncached E cfg p1 w1 with
      | (Raise e, w2) => respond E cfg rnd w = (Raise e, w2)
      | (Ok p2, w2) =>
          (∃ img, is_valid img
                  ∧ respond E cfg rnd w
                    = (Ok tt, log (EvRespond "success" (Some img)) w2))
          ∨ respond E cfg rnd w = (Ok tt, log (EvRespond "failure" None) w2)
      end
  end.
Proof.
  unfold respond, get_json, give_response. unfold_monad.
  destruct (manifest_file w) as [m|]; simpl;
    (destruct (update_cache E cfg _ w) as [[p1|e] w1]; [|done];
     destruct (download_uncached E cfg p1 w1) as [[p2|e] w2]; [|done];
     destruct (subscript_img p2) as [imgs|e]; [|by right];
     destruct (choice rnd (filter is_valid imgs)) as [img|e] eqn:Hch;
       [|by right];
     left; exists img; split; [|done];
     apply choice_elem_of in Hch;
     by apply list_elem_of_filter in Hch as [? _]).
Qed.

(** * Further properties of the code *)

(** ** [fetch] *)

(** A record whose [cached] field is truthy is returned by [fetch] as it is;
    nothing is retrieved and the world is left as it is. *)
Theorem fetch_cached_skipped (E : Env) (img : Img) (w : World) :
  is_cached img = true →
  fetch E img w = (Ok img, w)
  ∧ network_calls (fetch E img w).2 = network_calls w.
Proof. intros Hc. unfold fetch. by rewrite Hc. Qed.

Lemma fetch_cached_skipped_witness :
  fetch env0 (<["cached" := VInt 1]> img_x) (world0 None None)
  = (Ok (<["cached" := VInt 1]> img_x), world0 None None)
  ∧ network_calls (fetch env0 (<["cached" := VInt 1]> img_x)
                     (world0 None None)).2
    = network_calls (world0 None None).
Proof.
  apply (fetch_cached_skipped env0 (<["cached" := VInt 1]> img_x)
           (world0 None None)).
  vm_compute. reflexivity.
Defined.

Lemma filter_app_singleton_false (P : event → bool) (l : list event)
    (e : event) :
  P e = false → filter (λ x, P x) (l ++ [e]) = filter (λ x, P x) l.
Proof.
  intros He. rewrite filter_app, filter_cons_False, filter_nil.
  - apply app_nil_r.
  - rewrite He. exact id.
Qed.

(** Whatever [fetch] returns, it has changed no key of the record other
    than [error] and [mime_type], and it has written nothing: both stores
    and the cache are as before. *)
Theorem fetch_frame (E : Env) (img img' : Img) (w w' : World) :
  fetch E img w = (Ok img', w') →
  (∀ k, k ≠ "error" → k ≠ "mime_type" → img' !! k = img !! k)
  ∧ urls_file w' = urls_file w
  ∧ manifest_file w' = manifest_file w
  ∧ cache_files w' = cache_files w
  ∧ writes w' = writes w.
Proof.
  unfold fetch, requests_get, getitem. unfold_monad.
  destruct (is_cached img).
  { intros [= <- <-]. done. }
  destruct (img !! "url") as [[| | |u]|]; simpl; try done.
  destruct (http_get E u) as [r|e]; [|done].
  assert (writes (log (EvGet u) w) = writes w) as Hw.
  { unfold writes. simpl. by apply filter_app_singleton_false. }
  case_bool_decide; intros [= <- <-]; (split; [|done]);
    intros k ? ?; by simplify_map_eq.
Qed.

Lemma fetch_frame_witness :
  ∃ img' w',
    fetch env0 img_x (world0 None None) = (Ok img', w')
    ∧ (∀ k, k ≠ "error" → k ≠ "mime_type" → img' !! k = img_x !! k)
    ∧ urls_file w' = urls_file (world0 None None)
    ∧ manifest_file w' = manifest_file (world0 None None)
    ∧ cache_files w' = cache_files (world0 None None)
    ∧ writes w' = writes (world0 None None).
Proof.
  eexists _, _. split; [vm_compute; reflexivity|].
  apply (fetch_frame env0). vm_compute. reflexivity.
Defined.

(** ** [update_cache] *)

Lemma update_cache_no_source_list (E : Env) (cfg : Config) (p : Manifest)
    (w : World) :
  urls_file w = None → update_cache E cfg p w = (Raise IOError, w).
Proof.
  intros Hc. unfold update_cache, sha1. unfold_monad. by rewrite Hc.
Qed.

(** The steps of [respond], with the two [try] blocks resolved. *)
Lemma respond_steps (E : Env) (cfg : Config) (rnd : nat) (w : World) :
  respond E cfg rnd w
  = match update_cache E cfg (default empty_manifest (manifest_file w)) w with
    | (Raise e, w1) => (Raise e, w1)
    | (Ok p1, w1) =>
        match download_uncached E cfg p1 w1 with
        | (Raise e, w2) => (Raise e, w2)
        | (Ok p2, w2) =>
            match subscript_img p2 with
            | Raise _ => (Ok tt, log (EvRespond "failure" None) w2)
            | Ok imgs =>
                match choice rnd (filter is_valid imgs) with
                | Raise _ => (Ok tt, log (EvRespond "failure" None) w2)
                | Ok img => (Ok tt, log (EvRespond "success" (Some img)) w2)
                end
            end
        end
    end.
Proof.
  unfold respond, get_json, give_response. unfold_monad.
  destruct (manifest_file w) as [m|]; simpl;
    (destruct (update_cache E cfg _ w) as [[p1|e] w1]; [|done];
     destruct (download_uncached E cfg p1 w1) as [[p2|e] w2]; [|done];
     destruct (subscript_img p2) as [imgs|e]; [|done];
     by destruct (choice rnd (filter is_valid imgs))).
Qed.

(** When the source list file cannot be read, [update_cache] raises
    [IOError] before doing anything, and so does [respond], whatever the
    manifest, the configuration and the network: the world is left as it
    is, nothing is written and no response is emitted. *)
Theorem missing_source_list_raises (E : Env) (cfg : Config) (p : Manifest)
    (rnd : nat) (w : World) :
  urls_file w = None →
  update_cache E cfg p w = (Raise IOError, w)
  ∧ respond E cfg rnd w = (Raise IOError, w).
Proof.
  intros Hc. split; [by apply update_cache_no_source_list|].
  rewrite respond_steps. by rewrite update_cache_no_source_list.
Qed.

Lemma missing_source_list_raises_witness :
  update_cache env0 cfg_key empty_manifest (world0 None (Some empty_manifest))
  = (Raise IOError, world0 None (Some empty_manifest))
  ∧ respond env0 cfg_key 0 (world0 None (Some empty_manifest))
    = (Raise IOError, world0 None (Some empty_manifest)).
Proof.
  apply (missing_source_list_raises env0 cfg_key empty_manifest 0
           (world0 None (Some empty_manifest))).
  reflexivity.
Defined.

(** The manifest that [update_cache] returns always carries the hash of the
    source list as it was when the call started, also when the call itself
    has then rewritten the file. *)
Theorem update_cache_records_hash (E : Env) (cfg : Config) (p p1 : Manifest)
    (w w1 : World) :
  update_cache E cfg p w = (Ok p1, w1) →
  ∃ c, urls_file w = Some c ∧ m_hash p1 = Some (sha1_hex E c).
Proof.
  intros Hrun. destruct (urls_file w) as [c|] eqn:Hc.
  - exists c. split; [done|].
    destruct (decide (m_hash p = Some (sha1_hex E c))) as [Hh|Hh].
    + rewrite (update_cache_fast E cfg p w c Hc Hh) in Hrun.
      by injection Hrun as <- <-.
    + destruct (update_cache_rebuild E cfg p p1 w w1 c Hc Hh Hrun)
        as (fetched & w' & us & lines & _ & -> & _). done.
  - by rewrite update_cache_no_source_list in Hrun.
Qed.

Lemma update_cache_records_hash_witness :
  ∃ p1 w1,
    update_cache env0 cfg_nokey empty_manifest
      (world0 (Some ("http://b/y.png" +:+ NL)) None) = (Ok p1, w1)
    ∧ urls_file w1 = Some ""
    ∧ ∃ c, urls_file (world0 (Some ("http://b/y.png" +:+ NL)) None) = Some c
           ∧ m_hash p1 = Some (sha1_hex env0 c).
Proof.
  eexists _, _. split; [vm_compute; reflexivity|]. split; [reflexivity|].
  eapply (update_cache_records_hash env0 cfg_nokey empty_manifest).
  vm_compute. reflexivity.
Defined.

(** ** [with_valid_imgs], [valid_urls], [update_urls] *)

(** When [with_valid_imgs] returns, the records it kept are exactly the
    error-free records of the manifest, in their order; [hash] and [id] are
    as before; and filtering the result again changes nothing. *)
Theorem with_valid_imgs_keeps_valid (m m' : Manifest) :
  with_valid_imgs m = Ok m' →
  (∃ imgs imgs',
     m_img m = Some imgs ∧ m_img m' = Some imgs'
     ∧ imgs' `sublist_of` imgs
     ∧ ∀ img, img ∈ imgs' ↔ img ∈ imgs ∧ is_valid img)
  ∧ m_hash m' = m_hash m
  ∧ m_id m' = m_id m
  ∧ with_valid_imgs m' = Ok m'.
Proof.
  unfold with_valid_imgs, get_img. destruct (m_img m) as [imgs|] eqn:Hi; [|done].
  intros [= <-]. simpl. split; [|split; [done|split; [done|]]].
  - exists imgs, (filter is_valid imgs). split; [done|]. split; [done|].
    split; [apply sublist_filter|].
    intros img. rewrite list_elem_of_filter. tauto.
  - by rewrite filter_valid_id by apply filter_valid_Forall.
Qed.

Lemma with_valid_imgs_keeps_valid_witness :
  let m := mkManifest (Some "h")
             (Some [<["error" := VInt 404]> img_x; img_x]) (Some "i") in
  let m' := mkManifest (Some "h") (Some [img_x]) (Some "i") in
  (∃ imgs imgs',
     m_img m = Some imgs ∧ m_img m' = Some imgs'
     ∧ imgs' `sublist_of` imgs
     ∧ ∀ img, img ∈ imgs' ↔ img ∈ imgs ∧ is_valid img)
  ∧ m_hash m' = m_hash m
  ∧ m_id m' = m_id m
  ∧ with_valid_imgs m' = Ok m'.
Proof.
  apply (with_valid_imgs_keeps_valid
           (mkManifest (Some "h")
              (Some [<["error" := VInt 404]> img_x; img_x]) (Some "i"))
           (mkManifest (Some "h") (Some [img_x]) (Some "i"))).
  vm_compute. reflexivity.
Defined.

Lemma mapR_getitem_raises (k : string) (l : list Img) :
  (∃ e, mapR (getitem k) l = Raise e)
  ↔ ∃ img, img ∈ l ∧ img !! k = None.
Proof.
  induction l as [|img l IH]; simpl.
  - split; [by intros [e ?]|]. by intros (img & ?%elem_of_nil & _).
  - unfold getitem at 1. destruct (img !! k) as [v|] eqn:Hk.
    + destruct (mapR (getitem k) l) as [vs|e] eqn:Hl.
      * split; [by intros [e ?]|].
        intros (img' & [->|Hin]%elem_of_cons & Hn); [congruence|].
        destruct (proj2 IH) as [e ?]; [by exists img'|done].
      * split; [|by exists e]. intros _.
        destruct (proj1 IH) as (img' & Hin & Hn); [by exists e|].
        exists img'. split; [by right|done].
    + split; [|by exists (KeyError k)]. intros _. exists img.
      split; [by left|done].
Qed.

Lemma mapR_getitem_exn (k : string) (l : list Img) (e : exn) :
  mapR (getitem k) l = Raise e → e = KeyError k.
Proof.
  induction l as [|img l IH]; simpl; [done|].
  unfold getitem at 1. destruct (img !! k); [|by intros [= <-]].
  destruct (mapR (getitem k) l); [done|]. intros [= <-]. by apply IH.
Qed.

(** [valid_urls] raises exactly when some error-free record has no [url]
    key, and what it raises is [KeyError 'url']; a record that carries an
    error never makes it fail. *)
Theorem valid_urls_raises_iff (imgs : list Img) :
  ((∃ e, valid_urls imgs = Raise e)
   ↔ ∃ img, img ∈ imgs ∧ is_valid img ∧ img !! "url" = None)
  ∧ ∀ e, valid_urls imgs = Raise e → e = KeyError "url".
Proof.
  unfold valid_urls. split; [|intros e; apply mapR_getitem_exn].
  rewrite mapR_getitem_raises. split.
  - intros (img & [Hv Hin]%list_elem_of_filter & Hn). by exists img.
  - intros (img & Hin & Hv & Hn). exists img. split; [|done].
    by apply list_elem_of_filter.
Qed.

Lemma url_lines_raises (urls : list value) (v : value) :
  v ∈ urls → (∀ s, v ≠ VStr s) → url_lines urls = Raise TypeError.
Proof.
  unfold url_lines. induction urls as [|u urls IH]; intros Hin Hns.
  - by apply elem_of_nil in Hin.
  - simpl. apply elem_of_cons in Hin as [<-|Hin].
    + destruct v; try done. by destruct (Hns s).
    + rewrite (IH Hin Hns). by destruct u.
Qed.

(** When one of the values handed to [update_urls] is not a string, it
    raises [TypeError], and the source list file, already opened for
    writing, is left empty. *)
Theorem update_urls_not_a_string (urls : list value) (v : value) (w : World) :
  v ∈ urls →
  (∀ s, v ≠ VStr s) →
  (update_urls urls w).1 = Raise TypeError
  ∧ urls_file (update_urls urls w).2 = Some ""
  ∧ manifest_file (update_urls urls w).2 = manifest_file w.
Proof.
  intros Hin Hns. unfold update_urls.
  by rewrite (url_lines_raises urls v Hin Hns).
Qed.

Lemma update_urls_not_a_string_witness :
  (update_urls [VStr "http://a/x.jpg"; VNone]
     (world0 (Some "http://a/x.jpg") None)).1 = Raise TypeError
  ∧ urls_file (update_urls [VStr "http://a/x.jpg"; VNone]
                 (world0 (Some "http://a/x.jpg") None)).2 = Some ""
  ∧ manifest_file (update_urls [VStr "http://a/x.jpg"; VNone]
                     (world0 (Some "http://a/x.jpg") None)).2
    = manifest_file (world0 (Some "http://a/x.jpg") None).
Proof.
  apply (update_urls_not_a_string [VStr "http://a/x.jpg"; VNone] VNone
           (world0 (Some "http://a/x.jpg") None)).
  - apply (bool_decide_unpack _). vm_compute. exact I.
  - intros s. discriminate.
Defined.

(** ** [generate_cached_image] *)

Lemma filter_singleton_bool (P : event → bool) (e : event) :
  filter (λ x, P x) [e] = if P e then [e] else [].
Proof.
  destruct (P e) eqn:He.
  - rewrite filter_cons_True by (rewrite He; exact I). by rewrite filter_nil.
  - rewrite filter_cons_False by (rewrite He; exact id). by rewrite filter_nil.
Qed.

(** A successful shrink.  For a record that is not cached, when the shrink
    service answers [created] with a [Date] header, names an output URL and
    a MIME type with a known extension, and the output can be retrieved: the
    record comes back cached, with [url] the prefix followed by
    ["cache/<basename of the output URL><extension>"], [original_url] its
    former URL, [last_cached] the date and no [error]; the retrieved bytes
    are stored under that path in the ["cache"] directory, which exists
    afterwards; the two stores are not touched; and the network calls made
    are the shrink request and the retrieval, in this order. *)
Theorem shrink_success (E : Env) (prefix key : string) (img : Img) (u : value)
    (r r2 : response) (d out_url mime ext : string) (w : World) :
  is_cached img = false →
  img !! "url" = Some u →
  tinify_shrink E key u = Ok r →
  headers r !! "Date" = Some d →
  status_code r = codes_created →
  shrink_output E (content r) = Ok (out_url, mime) →
  http_get E out_url = Ok r2 →
  guess_extension E mime = Some ext →
  ∃ img' w',
    generate_cached_image E prefix key img w = (Ok img', w')
    ∧ img' !! "url"
      = Some (VStr (prefix +:+ path_join "cache" (basename out_url +:+ ext)))
    ∧ img' !! "cached" = Some (VBool true)
    ∧ img' !! "original_url" = Some u
    ∧ img' !! "last_cached" = Some (VStr d)
    ∧ img' !! "error" = None
    ∧ (∀ k, k ∉ ["url"; "cached"; "original_url"; "last_cached"; "error"] →
            img' !! k = img !! k)
    ∧ cache_dir w' = true
    ∧ cache_files w'
      = (path_join "cache" (basename out_url +:+ ext), content r2)
          :: cache_files w
    ∧ urls_file w' = urls_file w
    ∧ manifest_file w' = manifest_file w
    ∧ network_calls w' = network_calls w ++ [EvPost key u; EvGet out_url].
Proof.
  intros Hc Hu Hr Hd Hs Ho Hg He.
  unfold generate_cached_image, requests_post, requests_get, getitem.
  unfold_monad. rewrite Hc, Hu. simpl. rewrite Hr, Hd. simpl.
  rewrite bool_decide_eq_false_2 by (intros Hne; by apply Hne).
  rewrite Ho. simpl. rewrite Hg. simpl.
  destruct (cache_dir w) eqn:Hcd; rewrite He; simpl;
    eexists _, _; (split; [reflexivity|]);
    (repeat split; try done; try (by simplify_map_eq));
    try (intros k Hk; repeat (rewrite lookup_insert_ne
                                by (intros <-; apply Hk; set_solver));
         rewrite lookup_delete_ne by (intros <-; apply Hk; set_solver);
         repeat (rewrite lookup_insert_ne
                   by (intros <-; apply Hk; set_solver)); done);
    unfold network_calls; simpl;
    rewrite !filter_app, !filter_singleton_bool; simpl;
    by rewrite <- !(assoc_L (++)), ?app_nil_r.
Qed.

Lemma shrink_success_witness :
  ∃ img' w',
    generate_cached_image env0 "/chooser/" "k" img_x (world0 None None)
    = (Ok img', w')
    ∧ img' !! "url"
      = Some (VStr ("/chooser/" +:+
                    path_join "cache"
                      (basename "https://api.tinify.com/output/img.png"
                       +:+ ".png")))
    ∧ img' !! "cached" = Some (VBool true)
    ∧ img' !! "original_url" = Some (VStr "http://a/x.jpg")
    ∧ img' !! "last_cached" = Some (VStr "Wed, 04 Nov 2026 00:00:00 GMT")
    ∧ img' !! "error" = None
    ∧ (∀ k, k ∉ ["url"; "cached"; "original_url"; "last_cached"; "error"] →
            img' !! k = img_x !! k)
    ∧ cache_dir w' = true
    ∧ cache_files w'
      = (path_join "cache"
           (basename "https://api.tinify.com/output/img.png" +:+ ".png"),
         content (mkResponse 200 ∅ "PNG"))
          :: cache_files (world0 None None)
    ∧ urls_file w' = urls_file (world0 None None)
    ∧ manifest_file w' = manifest_file (world0 None None)
    ∧ network_calls w'
      = network_calls (world0 None None)
        ++ [EvPost "k" (VStr "http://a/x.jpg");
            EvGet "https://api.tinify.com/output/img.png"].
Proof.
  apply (shrink_success env0 "/chooser/" "k" img_x (VStr "http://a/x.jpg")
           created_png (mkResponse 200 ∅ "PNG")
           "Wed, 04 Nov 2026 00:00:00 GMT"
           "https://api.tinify.com/output/img.png" "image/png" ".png"
           (world0 None None)).
  - vm_compute. reflexivity.
  - vm_compute. reflexivity.
  - vm_compute. reflexivity.
  - vm_compute. reflexivity.
  - vm_compute. reflexivity.
  - vm_compute. reflexivity.
  - vm_compute. reflexivity.
  - vm_compute. reflexivity.
Defined.

(** When the answer of the shrink service has no [Date] header, the
    compressor raises [KeyError 'Date'], whatever the status of the answer,
    [created] included; the request has been made, nothing has been written
    and no record is returned. *)
Theorem shrink_without_date (E : Env) (prefix key : string) (img : Img)
    (u : value) (r : response) (w : World) :
  is_cached img = false →
  img !! "url" = Some u →
  tinify_shrink E key u = Ok r →
  headers r !! "Date" = None →
  generate_cached_image E prefix key img w
  = (Raise (KeyError "Date"), log (EvPost key u) w).
Proof.
  intros Hc Hu Hr Hd.
  unfold generate_cached_image, requests_post, getitem. unfold_monad.
  rewrite Hc, Hu. simpl. by rewrite Hr, Hd.
Qed.

Lemma shrink_without_date_witness :
  generate_cached_image
    (mkEnv (set_slot env0) (sha1_hex env0) (json_dumps env0) (http_get env0)
       (λ _ _, Ok (mkResponse 201 ∅ "{}")) (shrink_output env0) (glob env0)
       (guess_type env0) (guess_extension env0))
    "/chooser/" "k" img_x (world0 None None)
  = (Raise (KeyError "Date"),
     log (EvPost "k" (VStr "http://a/x.jpg")) (world0 None None)).
Proof.
  apply (shrink_without_date _ "/chooser/" "k" img_x (VStr "http://a/x.jpg")
           (mkResponse 201 ∅ "{}") (world0 None None)).
  - vm_compute. reflexivity.
  - vm_compute. reflexivity.
  - reflexivity.
  - vm_compute. reflexivity.
Defined.

(** ** Record by record *)

Lemma mapM_Forall2 {A B} (f : A → M B) (R : A → B → Prop) (l : list A)
    (l' : list B) (w w' : World) :
  (∀ a b w w', f a w = (Ok b, w') → R a b) →
  mapM f l w = (Ok l', w') →
  Forall2 R l l'.
Proof.
  intros Hf. revert l' w. induction l as [|a l IH]; intros l' w; simpl.
  - unfold ret. intros [= <- <-]. constructor.
  - unfold_monad. destruct (f a w) as [[b|e] w1] eqn:Hfa; [|done].
    destruct (mapM f l w1) as [[bs|e] w2] eqn:Hl; [|done].
    intros [= <- <-]. constructor; [by eapply Hf|by eapply IH].
Qed.

Lemma fetch_keeps_cached (E : Env) (a b : Img) (w w' : World) :
  fetch E a w = (Ok b, w') → is_cached a = true → b = a.
Proof.
  intros Hf Hc. unfold fetch in Hf. rewrite Hc in Hf.
  by injection Hf as <- <-.
Qed.

Lemma cached_record_cached (E : Env) (cfg : Config) (fn : string) :
  is_cached (cached_record E cfg fn) = true
  ∧ is_valid (cached_record E cfg fn)
  ∧ cached_record E cfg fn !! "url" = Some (VStr (cache_prefix cfg +:+ fn)).
Proof.
  unfold is_cached, is_valid, cached_record. by simplify_map_eq.
Qed.

(** When [update_cache] rebuilds and returns, every file that [glob] found
    in the cache directory is in the manifest as a cached, error-free record
    whose [url] is the cache prefix followed by the file's path; no fetch
    can remove it. *)
Theorem cached_files_survive_rebuild (E : Env) (cfg : Config)
    (p p1 : Manifest) (w w1 : World) (c fn : string) :
  urls_file w = Some c →
  m_hash p ≠ Some (sha1_hex E c) →
  update_cache E cfg p w = (Ok p1, w1) →
  fn ∈ glob E (cache_prefix cfg +:+ "/*") →
  ∃ imgs img,
    m_img p1 = Some imgs
    ∧ img ∈ imgs
    ∧ is_cached img = true
    ∧ is_valid img
    ∧ img !! "url" = Some (VStr (cache_prefix cfg +:+ fn)).
Proof.
  intros Hc Hh Hrun Hfn.
  destruct (update_cache_rebuild E cfg p p1 w w1 c Hc Hh Hrun)
    as (fetched & w' & us & lines & Hf & Hp1 & _).
  destruct (cached_record_cached E cfg fn) as (Hca & Hva & Hurl).
  exists (filter is_valid fetched), (cached_record E cfg fn).
  split; [by rewrite Hp1|]. split; [|done].
  apply list_elem_of_filter. split; [done|].
  apply (mapM_Forall2 _ (λ a b, is_cached a = true → b = a)) in Hf;
    [|by intros; eapply fetch_keeps_cached].
  assert (cached_record E cfg fn ∈ candidates E cfg c) as Hin.
  { unfold candidates. apply elem_of_app. right. by apply list_elem_of_fmap_2. }
  apply list_elem_of_lookup in Hin as [i Hi].
  destruct (Forall2_lookup_l _ _ _ _ _ Hf Hi) as (b & Hb & Hab).
  rewrite (Hab Hca) in Hb. by eapply list_elem_of_lookup_2.
Qed.

Lemma cached_files_survive_rebuild_witness :
  ∃ p1 w1,
    update_cache env_cached cfg_nokey empty_manifest
      (world0 (Some ("http://b/y.png" +:+ NL)) None) = (Ok p1, w1)
    ∧ ∃ imgs img,
        m_img p1 = Some imgs
        ∧ img ∈ imgs
        ∧ is_cached img = true
        ∧ is_valid img
        ∧ img !! "url"
          = Some (VStr (cache_prefix cfg_nokey +:+ "cache/old.png")).
Proof.
  eexists _, _. split; [vm_compute; reflexivity|].
  eapply (cached_files_survive_rebuild env_cached cfg_nokey empty_manifest _
            (world0 (Some ("http://b/y.png" +:+ NL)) None)).
  - reflexivity.
  - vm_compute. discriminate.
  - vm_compute. reflexivity.
  - simpl. by left.
Defined.









(** ** [download_uncached] with a credential *)

Lemma generate_cached_image_record (E : Env) (prefix key : string)
    (a b : Img) (w w' : World) :
  generate_cached_image E prefix key a w = (Ok b, w') →
  if is_cached a then b = a
  else is_Some (a !! "url") ∧ b !! "original_url" = a !! "url".
Proof.
  unfold generate_cached_image, requests_post, requests_get, getitem.
  unfold_monad. destruct (is_cached a); [by intros [= <- <-]|].
  destruct (a !! "url") as [u|]; simpl; [|done].
  destruct (tinify_shrink E key u) as [r|]; [|done].
  destruct (headers r !! "Date") as [d|]; simpl; [|done].
  case_bool_decide.
  { intros [= <- <-]. split; [by eexists|]. by simplify_map_eq. }
  destruct (shrink_output E (content r)) as [[ou mt]|]; simpl; [|done].
  destruct (http_get E ou) as [r2|]; simpl; [|done].
  destruct (cache_dir w);
    (destruct (guess_extension E mt) as [ext|]; simpl; [|done];
     intros [= <- <-]; split; [by eexists|]; by simplify_map_eq).
Qed.

(** With an API key, when [download_uncached] returns, it returns a
    manifest, which is the one it has persisted.  That manifest has the
    [hash] it was given and as many records, in the same order: a cached
    record is passed on as it is, and every other record, shrunk or
    errored, is kept and carries its former URL as [original_url].  The
    source list file is not touched. *)
Theorem download_uncached_with_key (E : Env) (cfg : Config) (key : string)
    (m : Manifest) (r : option Manifest) (w w' : World) :
  api_key cfg = Some key →
  download_uncached E cfg m w = (Ok r, w') →
  ∃ m' imgs imgs',
    r = Some m'
    ∧ manifest_file w' = Some m'
    ∧ m_hash m' = m_hash m
    ∧ m_img m = Some imgs
    ∧ m_img m' = Some imgs'
    ∧ Forall2 (λ a b, if is_cached a then b = a
                      else is_Some (a !! "url")
                           ∧ b !! "original_url" = a !! "url") imgs imgs'
    ∧ urls_file w' = urls_file w.
Proof.
  intros Hk Hrun.
  pose proof (download_uncached_urls_file E cfg m w) as Hu.
  rewrite Hrun in Hu. simpl in Hu.
  unfold download_uncached in Hrun. rewrite Hk in Hrun.
  unfold get_img in Hrun. unfold_monad.
  destruct (m_img m) as [imgs|] eqn:Hi; [|done].
  destruct (mapM (generate_cached_image E (cache_prefix cfg) key) imgs w)
    as [[imgs'|e] w1] eqn:Hm; [|done].
  unfold update_manifest in Hrun. injection Hrun as <- <-.
  eexists _, imgs, imgs'. split; [reflexivity|].
  repeat split; try done.
  eapply mapM_Forall2; [|exact Hm].
  intros a b wa wb. apply generate_cached_image_record.
Qed.

Lemma download_uncached_with_key_witness :
  let m := mkManifest (Some "h")
             (Some [img_x; <["cached" := VBool true]> img_x]) None in
  ∃ r w',
    download_uncached env0 cfg_badkey m (world0 (Some "") None) = (Ok r, w')
    ∧ ∃ m' imgs imgs',
        r = Some m'
        ∧ manifest_file w' = Some m'
        ∧ m_hash m' = m_hash m
        ∧ m_img m = Some imgs
        ∧ m_img m' = Some imgs'
        ∧ Forall2 (λ a b, if is_cached a then b = a
                          else is_Some (a !! "url")
                               ∧ b !! "original_url" = a !! "url") imgs imgs'
        ∧ urls_file w' = urls_file (world0 (Some "") None).
Proof.
  simpl. eexists _, _. split; [vm_compute; reflexivity|].
  eapply (download_uncached_with_key env0 cfg_badkey "bad"
            (mkManifest (Some "h")
               (Some [img_x; <["cached" := VBool true]> img_x]) None) _
            (world0 (Some "") None)).
  - reflexivity.
  - vm_compute. reflexivity.
Defined.

(** ** [respond] *)

Lemma response_of_log (st : string) (d : option Img) (w : World) :
  response_of (log (EvRespond st d) w) = Some (st, d).
Proof. unfold response_of, log. simpl. by rewrite last_snoc. Qed.

Lemma download_uncached_persists (E : Env) (cfg : Config) (m : Manifest)
    (r : option Manifest) (w w' : World) :
  download_uncached E cfg m w = (Ok r, w') →
  match api_key cfg with
  | None => r = None ∧ w' = w
  | Some _ => ∃ m', r = Some m' ∧ manifest_file w' = Some m'
  end.
Proof.
  unfold download_uncached, get_img. destruct (api_key cfg) as [key|].
  - unfold_monad. destruct (m_img m) as [imgs|]; [|done].
    destruct (mapM _ imgs w) as [[imgs'|e] w1]; [|done].
    unfold update_manifest. intros [= <- <-]. by eexists.
  - by intros [= <- <-].
Qed.

(** Whenever [respond] returns having emitted a success response, an API
    key is configured, and the record it selected is an error-free record
    of the manifest as it is persisted at that moment. *)
Theorem respond_success_selected (E : Env) (cfg : Config) (rnd : nat)
    (w w' : World) (img : Img) :
  respond E cfg rnd w = (Ok tt, w') →
  response_of w' = Some ("success", Some img) →
  ∃ key m imgs,
    api_key cfg = Some key
    ∧ manifest_file w' = Some m
    ∧ m_img m = Some imgs
    ∧ img ∈ imgs
    ∧ is_valid img.
Proof.
  rewrite respond_steps.
  destruct (update_cache E cfg _ w) as [[p1|e] w1]; [|done].
  destruct (download_uncached E cfg p1 w1) as [[p2|e] w2] eqn:Hd; [|done].
  apply download_uncached_persists in Hd.
  destruct (subscript_img p2) as [imgs|e] eqn:Hs.
  - destruct (choice rnd (filter is_valid imgs)) as [img0|e] eqn:Hch.
    + intros [= <-]. rewrite response_of_log. intros [= <-].
      apply choice_elem_of in Hch.
      apply list_elem_of_filter in Hch as [Hv Hin].
      destruct (api_key cfg) as [key|].
      * destruct Hd as (m' & -> & Hm). simpl in Hs. unfold get_img in Hs.
        destruct (m_img m') as [imgs'|] eqn:Hi; [|done].
        injection Hs as ->. by exists key, m', imgs.
      * destruct Hd as [-> _]. done.
    + intros [= <-]. by rewrite response_of_log.
  - intros [= <-]. by rewrite response_of_log.
Qed.

Lemma respond_success_selected_witness :
  ∃ w' img,
    respond env0 cfg_key 0 (world0 (Some ("http://a/x.jpg" +:+ NL)) None)
    = (Ok tt, w')
    ∧ response_of w' = Some ("success", Some img)
    ∧ ∃ key m imgs,
        api_key cfg_key = Some key
        ∧ manifest_file w' = Some m
        ∧ m_img m = Some imgs
        ∧ img ∈ imgs
        ∧ is_valid img.
Proof.
  eexists _, _. split; [vm_compute; reflexivity|].
  split; [vm_compute; reflexivity|].
  eapply (respond_success_selected env0 cfg_key 0
            (world0 (Some ("http://a/x.jpg" +:+ NL)) None)).
  - vm_compute. reflexivity.
  - vm_compute. reflexivity.
Defined.

(** Without an API key [respond] never emits a success response, whatever
    the source list, the manifest and the network: it raises when the
    reconciliation raises, and otherwise emits the failure response right
    after the reconciliation. *)
Theorem respond_without_key_never_succeeds (E : Env) (prefix : string)
    (rnd : nat) (w : World) :
  respond E (mkConfig prefix None) rnd w
  = match update_cache E (mkConfig prefix None)
            (default empty_manifest (manifest_file w)) w with
    | (Ok _, w1) => (Ok tt, log (EvRespond "failure" None) w1)
    | (Raise e, w1) => (Raise e, w1)
    end.
Proof.
  rewrite respond_steps.
  by destruct (update_cache E _ _ w) as [[p1|e] w1].
Qed.

Lemma update_cache_empty (E : Env) (cfg : Config) (p : Manifest) (w : World) :
  urls_file w = Some "" →
  m_hash p ≠ Some (sha1_hex E "") →
  glob E (cache_prefix cfg +:+ "/*") = [] →
  let q := set_img [] (set_hash (sha1_hex E "") p) in
  let p1 := set_id (sha1_dict E q) q in
  update_cache E cfg p w
  = (Ok p1,
     log (EvWriteUrls "")
       (mkWorld (Some "") (Some p1) (cache_dir w) (cache_files w)
          (trace w ++ [EvWriteManifest p1]))).
Proof.
  intros Hc Hh Hg. simpl.
  unfold update_cache, sha1, read_urls. unfold_monad. rewrite Hc.
  rewrite bool_decide_eq_false_2 by done. rewrite Hc.
  change (parse_urls (readlines "")) with (∅ : gset string).
  rewrite iterate_empty, Hg. simpl.
  reflexivity.
Qed.

(** An empty source list, an empty cache directory and a manifest that is
    missing or out of date: [respond] returns with the failure response,
    with or without an API key and whatever the random draw; it makes no
    network call, and leaves an empty source list and a persisted manifest
    with no record. *)
Theorem respond_empty_source_list (E : Env) (cfg : Config) (rnd : nat)
    (w : World) :
  urls_file w = Some "" →
  m_hash (default empty_manifest (manifest_file w)) ≠ Some (sha1_hex E "") →
  glob E (cache_prefix cfg +:+ "/*") = [] →
  ∃ w' m,
    respond E cfg rnd w = (Ok tt, w')
    ∧ response_of w' = Some ("failure", None)
    ∧ network_calls w' = network_calls w
    ∧ urls_file w' = Some ""
    ∧ manifest_file w' = Some m
    ∧ m_img m = Some [].
Proof.
  intros Hc Hh Hg. rewrite respond_steps.
  rewrite (update_cache_empty E cfg _ w Hc Hh Hg).
  unfold download_uncached, get_img, update_manifest. unfold_monad.
  destruct (api_key cfg) as [key|]; simpl;
    eexists _, _; (split; [reflexivity|]);
    (split; [apply response_of_log|]);
    (split; [|by repeat split]);
    unfold network_calls; simpl;
    rewrite !filter_app, !filter_singleton_bool; simpl;
    by rewrite ?app_nil_r.
Qed.

Lemma respond_empty_source_list_witness :
  ∃ w' m,
    respond env0 cfg_key 0 (world0 (Some "") None) = (Ok tt, w')
    ∧ response_of w' = Some ("failure", None)
    ∧ network_calls w' = network_calls (world0 (Some "") None)
    ∧ urls_file w' = Some ""
    ∧ manifest_file w' = Some m
    ∧ m_img m = Some [].
Proof.
  apply (respond_empty_source_list env0 cfg_key 0 (world0 (Some "") None)).
  - reflexivity.
  - vm_compute. discriminate.
  - reflexivity.
Defined.

Lemma responses_log (e : event) (w : World) :
  responses (log e w) = responses w ++ (if is_respond e then [e] else []).
Proof.
  unfold responses, log. simpl. by rewrite filter_app, filter_singleton_bool.
Qed.

Lemma mapM_invariant {A B X} (g : World → X) (f : A → M B) (l : list A)
    (w : World) :
  (∀ a w, g (f a w).2 = g w) → g (mapM f l w).2 = g w.
Proof.
  intros Hf. revert w. induction l as [|a l IH]; intros w; [done|].
  simpl. unfold_monad. specialize (Hf a w).
  destruct (f a w) as [[b|e] w'] eqn:Hfa; simpl in *; [|done].
  specialize (IH w'). destruct (mapM f l w') as [[bs|e] w'']; simpl in *;
    congruence.
Qed.

Lemma fetch_responses (E : Env) (img : Img) (w : World) :
  responses (fetch E img w).2 = responses w.
Proof.
  unfold fetch, requests_get, getitem. unfold_monad.
  repeat (case_match; simplify_eq; simpl; try done);
    rewrite responses_log; simpl; by rewrite app_nil_r.
Qed.

Lemma generate_cached_image_responses (E : Env) (prefix key : string)
    (img : Img) (w : World) :
  responses (generate_cached_image E prefix key img w).2 = responses w.
Proof.
  unfold generate_cached_image, requests_post, requests_get, getitem.
  unfold_monad.
  repeat (case_match; simplify_eq; simpl; try done);
    unfold responses; simpl;
    rewrite ?filter_app, ?filter_singleton_bool; simpl;
    by rewrite ?app_nil_r.
Qed.

Lemma update_cache_responses (E : Env) (cfg : Config) (p : Manifest)
    (w : World) :
  responses (update_cache E cfg p w).2 = responses w.
Proof.
  unfold update_cache, sha1, read_urls. unfold_monad.
  destruct (urls_file w) as [c|] eqn:Hc; [|done].
  case_bool_decide; [done|]. rewrite Hc.
  match goal with
  | |- context [mapM (fetch E) ?l w] =>
      pose proof (mapM_invariant responses (fetch E) l w (fetch_responses E))
        as Hm;
      destruct (mapM (fetch E) l w) as [[fetched|e] w1]
  end; simpl in *; [|done].
  unfold update_urls.
  destruct (mapR (getitem "url") (filter is_valid fetched)) as [us|e]; simpl.
  - destruct (url_lines us); simpl;
      unfold responses in *; simpl;
      rewrite !filter_app, !filter_singleton_bool; simpl;
      by rewrite !app_nil_r.
  - unfold responses in *. simpl.
    rewrite filter_app, filter_singleton_bool. simpl. by rewrite app_nil_r.
Qed.

Lemma download_uncached_responses (E : Env) (cfg : Config) (m : Manifest)
    (w : World) :
  responses (download_uncached E cfg m w).2 = responses w.
Proof.
  unfold download_uncached, get_img. destruct (api_key cfg) as [key|]; [|done].
  unfold_monad. destruct (m_img m) as [imgs|]; [|done]. simpl.
  pose proof (mapM_invariant responses
                (generate_cached_image E (cache_prefix cfg) key) imgs w
                (generate_cached_image_responses E _ key)) as Hm.
  destruct (mapM _ imgs w) as [[imgs'|e] w1]; simpl in *; [|done].
  unfold responses in *. simpl.
  rewrite filter_app, filter_singleton_bool. simpl. by rewrite app_nil_r.
Qed.

(** [respond] emits exactly one response when it returns, and none when it
    raises: the two stages before the selection never emit one. *)
Theorem respond_single_response (E : Env) (cfg : Config) (rnd : nat)
    (w : World) :
  match respond E cfg rnd w with
  | (Ok _, w') => ∃ st d, responses w' = responses w ++ [EvRespond st d]
  | (Raise _, w') => responses w' = responses w
  end.
Proof.
  rewrite respond_steps.
  pose proof (update_cache_responses E cfg
                (default empty_manifest (manifest_file w)) w) as H1.
  destruct (update_cache E cfg _ w) as [[p1|e] w1]; simpl in H1; [|done].
  pose proof (download_uncached_responses E cfg p1 w1) as H2.
  destruct (download_uncached E cfg p1 w1) as [[p2|e] w2]; simpl in H2;
    [|congruence].
  destruct (subscript_img p2) as [imgs|e];
    [destruct (choice rnd (filter is_valid imgs)) as [img|e]|];
    eexists _, _; rewrite responses_log; simpl; by rewrite H2, H1.
Qed.

(** ** The records of a rebuilt manifest *)

Lemma fetch_record (E : Env) (a b : Img) (w w' : World) :
  fetch E a w = (Ok b, w') →
  if is_cached a then b = a
  else is_valid b →
       ∃ u r, a !! "url" = Some (VStr u)
              ∧ http_get E u = Ok r
              ∧ status_code r = codes_ok
              ∧ b = <["mime_type" :=
                        VStr (default "img/jpeg"
                                (headers r !! "Content-Type"))]> a.
Proof.
  unfold fetch, requests_get, getitem. unfold_monad.
  destruct (is_cached a); [by intros [= <- <-]|].
  destruct (a !! "url") as [[| | |u]|]; simpl; try done.
  destruct (http_get E u) as [r|e] eqn:Hr; [|done].
  case_bool_decide as Hs; intros [= <- <-].
  - unfold is_valid. by rewrite lookup_insert_eq.
  - intros _. exists u, r. repeat split; [done|].
    destruct (decide (status_code r = codes_ok)); [done|]. by destruct Hs.
Qed.

(** When [update_cache] rebuilds and returns, every record of the manifest
    is error-free and is either the cached record of a file that [glob]
    found, or a URL of the source list whose retrieval answered [ok],
    together with the content type that answer declared (["img/jpeg"] when
    it declared none), and nothing else. *)
Theorem rebuilt_records (E : Env) (cfg : Config) (p p1 : Manifest)
    (w w1 : World) (c : string) (imgs : list Img) (img : Img) :
  urls_file w = Some c →
  m_hash p ≠ Some (sha1_hex E c) →
  update_cache E cfg p w = (Ok p1, w1) →
  m_img p1 = Some imgs →
  img ∈ imgs →
  is_valid img
  ∧ ((∃ fn, fn ∈ glob E (cache_prefix cfg +:+ "/*")
            ∧ img = cached_record E cfg fn)
     ∨ (∃ u r, u ∈ parse_urls (readlines c)
               ∧ http_get E u = Ok r
               ∧ status_code r = codes_ok
               ∧ img = <["mime_type" :=
                           VStr (default "img/jpeg"
                                   (headers r !! "Content-Type"))]>
                         {["url" := VStr u]})).
Proof.
  intros Hc Hh Hrun Hi Hin.
  destruct (update_cache_rebuild E cfg p p1 w w1 c Hc Hh Hrun)
    as (fetched & w' & us & lines & Hf & Hp1 & _).
  rewrite Hp1 in Hi. simpl in Hi. injection Hi as <-.
  apply list_elem_of_filter in Hin as [Hv Hin]. split; [done|].
  apply (mapM_Forall2 _
           (λ a b, if is_cached a then b = a
                   else is_valid b →
                        ∃ u r, a !! "url" = Some (VStr u)
                               ∧ http_get E u = Ok r
                               ∧ status_code r = codes_ok
                               ∧ b = <["mime_type" :=
                                         VStr (default "img/jpeg"
                                                 (headers r !! "Content-Type"))]>
                                       a))
    in Hf; [|by intros; eapply fetch_record].
  apply list_elem_of_lookup in Hin as [i Hi].
  destruct (Forall2_lookup_r _ _ _ _ _ Hf Hi) as (a & Ha & Hab).
  apply list_elem_of_lookup_2 in Ha. unfold candidates in Ha.
  apply elem_of_app in Ha as [Ha|Ha].
  - apply list_elem_of_fmap in Ha as (u & -> & Hu). right.
    apply elem_of_iterate in Hu.
    assert (is_cached ({["url" := VStr u]} : Img) = false) as Hnc by done.
    rewrite Hnc in Hab. destruct (Hab Hv) as (u' & r & Hu' & Hr & Hs & ->).
    rewrite lookup_singleton_eq in Hu'. injection Hu' as <-. by exists u, r.
  - apply list_elem_of_fmap in Ha as (fn & -> & Hfn). left.
    destruct (cached_record_cached E cfg fn) as (Hca & _).
    rewrite Hca in Hab. by exists fn.
Qed.

Lemma rebuilt_records_witness :
  ∃ p1 w1 img,
    update_cache env_cached cfg_nokey empty_manifest
      (world0 (Some ("http://a/x.jpg" +:+ NL)) None) = (Ok p1, w1)
    ∧ m_img p1 = Some [img; cached_record env_cached cfg_nokey "cache/old.png"]
    ∧ is_valid img
    ∧ ((∃ fn, fn ∈ glob env_cached (cache_prefix cfg_nokey +:+ "/*")
              ∧ img = cached_record env_cached cfg_nokey fn)
       ∨ (∃ u r, u ∈ parse_urls (readlines ("http://a/x.jpg" +:+ NL))
                 ∧ http_get env_cached u = Ok r
                 ∧ status_code r = codes_ok
                 ∧ img = <["mime_type" :=
                             VStr (default "img/jpeg"
                                     (headers r !! "Content-Type"))]>
                           {["url" := VStr u]})).
Proof.
  eexists _, _, _. split; [vm_compute; reflexivity|].
  split; [vm_compute; reflexivity|].
  eapply (rebuilt_records env_cached cfg_nokey empty_manifest _
            (world0 (Some ("http://a/x.jpg" +:+ NL)) None)).
  - reflexivity.
  - vm_compute. discriminate.
  - vm_compute. reflexivity.
  - vm_compute. reflexivity.
  - by left.
Defined.

(** ** A request in the steady state *)

Lemma mapM_cached_skipped (E : Env) (prefix key : string) (imgs : list Img)
    (w : World) :
  Forall (λ i, is_cached i = true) imgs →
  mapM (generate_cached_image E prefix key) imgs w = (Ok imgs, w).
Proof.
  induction 1 as [|img imgs Hc _ IH]; [done|].
  change (mapM (generate_cached_image E prefix key) (img :: imgs) w)
    with (bind (generate_cached_image E prefix key img)
            (λ b, bind (mapM (generate_cached_image E prefix key) imgs)
                    (λ bs, ret (b :: bs))) w).
  unfold bind at 1. unfold generate_cached_image at 1. rewrite Hc.
  unfold ret at 1. unfold bind. by rewrite IH.
Qed.

Lemma choice_nonempty {A} (rnd : nat) (l : list A) :
  l ≠ [] → ∃ a, choice rnd l = Ok a.
Proof.
  intros Hl. unfold choice.
  destruct (lookup_lt_is_Some_2 l (rnd `mod` length l)%nat) as [a Ha].
  - apply Nat.mod_upper_bound. by destruct l.
  - exists a. by rewrite Ha.
Qed.

(** The steady state.  With an API key, a manifest whose hash is the hash
    of the source list and whose records, at least one, are all cached and
    error-free: [respond] returns with a success response that selects one
    of these records; it makes no network call and leaves the source list
    as it is; its only write is the manifest, persisted once more. *)
Theorem respond_steady_state (E : Env) (cfg : Config) (key : string)
    (rnd : nat) (w : World) (c : string) (m : Manifest) (imgs : list Img) :
  api_key cfg = Some key →
  urls_file w = Some c →
  manifest_file w = Some m →
  m_hash m = Some (sha1_hex E c) →
  m_img m = Some imgs →
  imgs ≠ [] →
  Forall (λ i, is_cached i = true) imgs →
  Forall is_valid imgs →
  ∃ img w',
    respond E cfg rnd w = (Ok tt, w')
    ∧ response_of w' = Some ("success", Some img)
    ∧ img ∈ imgs
    ∧ network_calls w' = network_calls w
    ∧ urls_file w' = urls_file w
    ∧ ∃ m', writes w' = writes w ++ [EvWriteManifest m']
            ∧ m_img m' = Some imgs.
Proof.
  intros Hk Hc Hm Hh Hi Hne Hca Hva.
  destruct (choice_nonempty rnd imgs Hne) as [img Hch].
  exists img. rewrite respond_steps. rewrite Hm. simpl.
  rewrite (update_cache_fast E cfg m w c Hc Hh).
  unfold download_uncached, get_img, update_manifest. unfold_monad.
  rewrite Hk, Hi. rewrite (mapM_cached_skipped E _ key imgs w Hca). simpl.
  rewrite (filter_valid_id imgs Hva), Hch.
  eexists. split; [reflexivity|]. split; [apply response_of_log|].
  split; [by eapply choice_elem_of|].
  unfold network_calls, writes. simpl.
  rewrite !filter_app, !filter_singleton_bool. simpl. rewrite !app_nil_r.
  split; [done|]. split; [done|]. by eexists.
Qed.

Lemma respond_steady_state_witness :
  let imgs := [cached_record env0 cfg_key "cache/old.png"] in
  let w := world0 (Some ("http://a/x.jpg" +:+ NL))
             (Some (mkManifest (Some (sha1_hex env0 ("http://a/x.jpg" +:+ NL)))
                      (Some imgs) None)) in
  ∃ img w',
    respond env0 cfg_key 7 w = (Ok tt, w')
    ∧ response_of w' = Some ("success", Some img)
    ∧ img ∈ imgs
    ∧ network_calls w' = network_calls w
    ∧ urls_file w' = urls_file w
    ∧ ∃ m', writes w' = writes w ++ [EvWriteManifest m']
            ∧ m_img m' = Some imgs.
Proof.
  apply (respond_steady_state env0 cfg_key "k" 7
           (world0 (Some ("http://a/x.jpg" +:+ NL))
              (Some (mkManifest
                       (Some (sha1_hex env0 ("http://a/x.jpg" +:+ NL)))
                       (Some [cached_record env0 cfg_key "cache/old.png"])
                       None)))
           ("http://a/x.jpg" +:+ NL)
           (mkManifest (Some (sha1_hex env0 ("http://a/x.jpg" +:+ NL)))
              (Some [cached_record env0 cfg_key "cache/old.png"]) None)
           [cached_record env0 cfg_key "cache/old.png"]).
  - reflexivity.
  - reflexivity.
  - reflexivity.
  - reflexivity.
  - reflexivity.
  - discriminate.
  - repeat constructor.
  - repeat constructor.
Defined.
